(** * PDSteeringEngine: outlier-trimming line fit and PD steering law

    A shallow embedding of [infer/proportional_derivative_steering_engine.py].

    Conventions of the embedding.
    - Scalars (Python numbers) are exact rationals [Q]; numeric equality is
      [==] ([Qeq]).  Rounding, infinities and NaN of machine floats are
      outside this model.  Module [Float64] embeds the same methods once more
      for the case that every number is a Python float, that is an IEEE 754
      binary64 value, with the kernel's primitive floats; what depends on
      NaN or overflow is stated there.
    - The module is Python 2 code ([from __future__ import division]): an
      ordering comparison between a number and [None] does not raise, [None]
      being smaller than every number.  [gt] below has that semantics.
    - The two collaborators that the module imports, [line_of_best_fit] and
      [BacklashCompensator], are parameters: a pure function on point lists
      and a state type with a [process] transformer.
    - Python exceptions are the [Raises] branch of [outcome].
    - The methods are embedded twice.  The first embedding passes lists by
      value; there [positions = list(positions)] is the identity.  The
      second passes references into a store of list objects and is related to
      the first by simulation; it is the one that can tell the caller's list
      from the copy that the loop prunes. *)

From stdpp Require Import gmap.
From Stdlib Require Import QArith Qabs Lia Lqa List Bool Arith Floats.
From Equations Require Import Equations.
Import ListNotations.
#[local] Open Scope Q_scope.

Set Implicit Arguments.

(** ** Python values and exceptions *)

Inductive exception : Type :=
| TypeError
| ValueError.

Inductive outcome (A : Type) : Type :=
| Returns (a : A)
| Raises (e : exception).

Arguments Returns {A} a.
Arguments Raises {A} e.

Definition bind {A B : Type} (m : outcome A) (k : A -> outcome B) : outcome B :=
  match m with
  | Returns a => k a
  | Raises e => Raises e
  end.

Notation "x <- m ;; k" := (bind m (fun x => k))
  (at level 100, m at next level, right associativity).

(** A point is [(y, x)]: [position[0]] is the vertical coordinate and
    [position[1]] the horizontal one.  A line is [(intercept, slope)],
    describing [x = slope * y + intercept]. *)
Definition point : Type := (Q * Q)%type.
Definition line : Type := (Q * Q)%type.

(** [a > b] on rationals, as a boolean. *)
Definition Qgtb (a b : Q) : bool :=
  match a ?= b with
  | Gt => true
  | _ => false
  end.

(** Python 2 [a > b] where either side may be [None]: [None] is below every
    number, and [None > None] is false. *)
Definition gt (a b : option Q) : bool :=
  match a, b with
  | Some a, Some b => Qgtb a b
  | Some _, None => true
  | None, _ => false
  end.

(** Python [p == q] on two points: componentwise numeric equality. *)
Definition point_eqb (p q : point) : bool :=
  Qeq_bool (fst p) (fst q) && Qeq_bool (snd p) (snd q).

(** [l.remove(x)]: drops the first element equal to [x]; [ValueError] when
    there is none. *)
Fixpoint list_remove (x : point) (l : list point) : outcome (list point) :=
  match l with
  | [] => Raises ValueError
  | p :: l' =>
      if point_eqb p x then Returns l'
      else l'' <- list_remove x l' ;; Returns (p :: l'')
  end.

(** ** The collaborators *)

(** [BacklashCompensator]: a state, created fresh by the constructor, and
    [process], which returns the compensated value and the next state. *)
Class BacklashCompensator (B : Type) : Type := {
  new_compensator : B;
  process : B -> Q -> Q * B
}.

(** ** The engine *)

Record PDSteeringEngine (B : Type) : Type := {
  proportional_multiplier : Q;
  derivative_multiplier : Q;
  max_distance_from_line : Q;
  ideal_center_x : Q;
  center_y : Q;
  steering_limit : Q;
  backlash_compensator : B;
  center_line_of_best_fit : option line;
  errors : option (Q * Q)
}.

(** The state of [remove_outliers] while it runs: [self], the two locals of
    the method, and two ghost fields that only observe the run:
    [fit_calls] lists the arguments of every call of [line_of_best_fit], most
    recent first, and [passes] counts the executions of the loop body. *)
Record loop_state (B : Type) : Type := {
  self : PDSteeringEngine B;
  positions : list point;
  previous_num_positions : option nat;
  fit_calls : list (list point);
  passes : nat
}.

Section Engine.

Context {B : Type} {BC : BacklashCompensator B}.
Variable line_of_best_fit : list point -> line.

#[local] Abbreviation engine := (PDSteeringEngine B).
#[local] Abbreviation state := (loop_state B).

(** [__init__]: stores its six arguments and a fresh compensator; the two
    class attributes start as [None]. *)
Definition __init__ (proportional_multiplier derivative_multiplier
                     max_distance_from_line ideal_center_x center_y
                     steering_limit : Q) : engine :=
  {| proportional_multiplier := proportional_multiplier;
     derivative_multiplier := derivative_multiplier;
     max_distance_from_line := max_distance_from_line;
     ideal_center_x := ideal_center_x;
     center_y := center_y;
     steering_limit := steering_limit;
     backlash_compensator := new_compensator;
     center_line_of_best_fit := None;
     errors := None |}.

(** The call [PDSteeringEngine(...)]: the constructor has no [raise], so the
    call returns the initialised object. *)
Definition new_engine (proportional_multiplier derivative_multiplier
                       max_distance_from_line ideal_center_x center_y
                       steering_limit : Q) : outcome engine :=
  Returns (__init__ proportional_multiplier derivative_multiplier
             max_distance_from_line ideal_center_x center_y steering_limit).

Definition set_center_line_of_best_fit (e : engine) (l : option line) : engine :=
  {| proportional_multiplier := proportional_multiplier e;
     derivative_multiplier := derivative_multiplier e;
     max_distance_from_line := max_distance_from_line e;
     ideal_center_x := ideal_center_x e;
     center_y := center_y e;
     steering_limit := steering_limit e;
     backlash_compensator := backlash_compensator e;
     center_line_of_best_fit := l;
     errors := errors e |}.

Definition set_errors (e : engine) (v : option (Q * Q)) : engine :=
  {| proportional_multiplier := proportional_multiplier e;
     derivative_multiplier := derivative_multiplier e;
     max_distance_from_line := max_distance_from_line e;
     ideal_center_x := ideal_center_x e;
     center_y := center_y e;
     steering_limit := steering_limit e;
     backlash_compensator := backlash_compensator e;
     center_line_of_best_fit := center_line_of_best_fit e;
     errors := v |}.

Definition set_backlash_compensator (e : engine) (b : B) : engine :=
  {| proportional_multiplier := proportional_multiplier e;
     derivative_multiplier := derivative_multiplier e;
     max_distance_from_line := max_distance_from_line e;
     ideal_center_x := ideal_center_x e;
     center_y := center_y e;
     steering_limit := steering_limit e;
     backlash_compensator := b;
     center_line_of_best_fit := center_line_of_best_fit e;
     errors := errors e |}.

(** Reading [self.center_line_of_best_fit] as a pair (by subscript or by
    unpacking): [TypeError] while the attribute is [None]. *)
Definition read_line (e : engine) : outcome line :=
  match center_line_of_best_fit e with
  | Some l => Returns l
  | None => Raises TypeError
  end.

(** *** remove_outliers *)

(** The nested [store_line_of_best_fit()]. *)
Definition store_line_of_best_fit (st : state) : state :=
  {| self := set_center_line_of_best_fit (self st)
               (Some (line_of_best_fit (positions st)));
     positions := positions st;
     previous_num_positions := previous_num_positions st;
     fit_calls := positions st :: fit_calls st;
     passes := passes st |}.

(** One iteration of [for position in list(positions)], on the pair
    [(greatest_distance_value, greatest_distance_position)]. *)
Definition scan_step (e : engine) (acc : option Q * option point)
    (position : point) : outcome (option Q * option point) :=
  let y_position := fst position in
  let x_position := snd position in
  l <- read_line e ;;
  let predicted_x_position := (snd l * y_position) + fst l in
  let current_distance := Qabs (predicted_x_position - x_position) in
  if gt (Some current_distance) (fst acc)
  then Returns (Some current_distance, Some position)
  else Returns acc.

Fixpoint scan (e : engine) (ps : list point) (acc : option Q * option point)
    : outcome (option Q * option point) :=
  match ps with
  | [] => Returns acc
  | position :: ps' => acc' <- scan_step e acc position ;; scan e ps' acc'
  end.

(** [positions.remove(greatest_distance_position)]. *)
Definition remove_position (gp : option point) (ps : list point)
    : outcome (list point) :=
  match gp with
  | Some p => list_remove p ps
  | None => Raises ValueError
  end.

(** The test of the [while]. *)
Definition loop_cond (st : state) : bool :=
  match previous_num_positions st with
  | None => true
  | Some n => negb (length (positions st) =? n)%nat
  end.

(** The body of the [while]. *)
Definition loop_body (st : state) : outcome state :=
  let previous := Some (length (positions st)) in
  let st1 := store_line_of_best_fit st in
  g <- scan (self st1) (positions st1) (None, None) ;;
  let greatest_distance_value := fst g in
  let greatest_distance_position := snd g in
  ps' <- (if gt greatest_distance_value
                (Some (max_distance_from_line (self st1)))
          then remove_position greatest_distance_position (positions st1)
          else Returns (positions st1)) ;;
  Returns {| self := self st1;
             positions := ps';
             previous_num_positions := previous;
             fit_calls := fit_calls st1;
             passes := S (passes st1) |}.

(** When [list.remove] returns, the list is one element shorter. *)
Lemma list_remove_length (x : point) (l l' : list point) :
  list_remove x l = Returns l' -> S (length l') = length l.
Proof.
  revert l'. induction l as [|p l IH]; intros l' H; simpl in H.
  - discriminate.
  - destruct (point_eqb p x).
    + injection H as <-. reflexivity.
    + destruct (list_remove x l) as [l2|]; simpl in H; [|discriminate].
      injection H as <-. simpl. rewrite (IH l2); reflexivity.
Qed.

Lemma loop_body_previous (st st' : state) :
  loop_body st = Returns st' ->
  previous_num_positions st' = Some (length (positions st)).
Proof.
  unfold loop_body. intros H.
  destruct (scan _ _ _) as [g|]; simpl in H; [|discriminate].
  destruct (gt _ _); simpl in H.
  - destruct (remove_position _ _); simpl in H; [|discriminate].
    injection H as <-. reflexivity.
  - injection H as <-. reflexivity.
Qed.

Lemma loop_body_length (st st' : state) :
  loop_body st = Returns st' ->
  (length (positions st') <= length (positions st))%nat.
Proof.
  unfold loop_body. intros H.
  destruct (scan _ _ _) as [g|]; simpl in H; [|discriminate].
  destruct (gt _ _); simpl in H.
  - destruct (remove_position _ _) as [ps'|] eqn:R; simpl in H; [|discriminate].
    injection H as <-. simpl.
    unfold remove_position in R. destruct (snd g); [|discriminate].
    apply list_remove_length in R. lia.
  - injection H as <-. simpl. lia.
Qed.

(** The variant of the [while]: nothing once the test fails, otherwise one
    more than the number of positions left. *)
Definition loop_measure (st : state) : nat :=
  if loop_cond st then S (length (positions st)) else 0.

Lemma loop_body_decreases (st st' : state) :
  loop_cond st = true ->
  loop_body st = Returns st' ->
  (loop_measure st' < loop_measure st)%nat.
Proof.
  intros C H. unfold loop_measure. rewrite C.
  pose proof (loop_body_previous _ H) as P.
  pose proof (loop_body_length _ H) as L.
  unfold loop_cond. rewrite P.
  destruct (Nat.eqb_spec (length (positions st')) (length (positions st)));
    simpl; lia.
Qed.

(** [inspect x] is [x] together with the equation that a match on it needs
    to remember. *)
Definition inspect {A : Type} (x : A) : {y : A | x = y} := exist _ x eq_refl.

(** [while len(positions) != previous_num_positions: ...]. *)
Equations while_loop (st : state) : outcome state by wf (loop_measure st) lt :=
  while_loop st with inspect (loop_cond st) := {
    | exist _ false _ => Returns st
    | exist _ true C with inspect (loop_body st) := {
        | exist _ (Raises e) _ => Raises e
        | exist _ (Returns st') H => while_loop st' } }.
Next Obligation.
  apply loop_body_decreases; assumption.
Qed.

(** [remove_outliers], up to its [return]: the copy of the argument (the
    same list, at the level of values), the loop, and the last
    [store_line_of_best_fit()]. *)
Definition remove_outliers_run (e : engine) (positions0 : list point)
    : outcome state :=
  st <- while_loop {| self := e;
                      positions := positions0;
                      previous_num_positions := None;
                      fit_calls := [];
                      passes := 0 |} ;;
  Returns (store_line_of_best_fit st).

(** [remove_outliers]: the engine after the call and the list returned. *)
Definition remove_outliers (e : engine) (positions0 : list point)
    : outcome (engine * list point) :=
  st <- remove_outliers_run e positions0 ;;
  Returns (self st, positions st).

(** *** compute_steering_angle *)

(** The two tests that end [compute_steering_angle]. *)
Definition clamp (steering_limit steering_angle : Q) : Q :=
  if Qgtb steering_angle steering_limit then steering_limit
  else if Qgtb (- steering_limit) steering_angle then - steering_limit
  else steering_angle.

(** [compute_steering_angle] from the line after the call of
    [remove_outliers] to the [return]. *)
Definition steer (e : engine) : outcome (option (Q * Q * Q) * engine) :=
  l <- read_line e ;;
  let line_intercept := fst l in
  let line_slope := snd l in
  let center_x := (center_y e * line_slope) + line_intercept in
  let proportional_error := ideal_center_x e - center_x in
  let e := set_errors e (Some (proportional_error, line_slope)) in
  let steering_angle :=
    (proportional_error * proportional_multiplier e)
    + (line_slope * derivative_multiplier e) in
  let c := process (backlash_compensator e) steering_angle in
  let steering_angle := fst c in
  let e := set_backlash_compensator e (snd c) in
  let steering_angle := clamp (steering_limit e) steering_angle in
  Returns (Some (steering_angle, proportional_error, line_slope), e).

(** [compute_steering_angle]: the value returned ([None], or the tuple
    [(steering_angle, proportional_error, line_slope)]) and the engine after
    the call. *)
Definition compute_steering_angle (e : engine) (center_points : list point)
    : outcome (option (Q * Q * Q) * engine) :=
  if (length center_points <? 2)%nat then Returns (None, e)
  else
    r <- remove_outliers e center_points ;;
    steer (fst r).

End Engine.

(** ** The same methods over a store of list objects

    [remove_outliers] rebinds its parameter to [list(positions)] before it
    removes anything.  To tell that copy from the caller's list, this section
    runs the methods on references into a store of list objects.  A reference
    held by a program always points to an object; [deref] returns the empty
    list for one that does not. *)

Definition loc : Type := positive.

Definition deref (h : gmap loc (list point)) (r : loc) : list point :=
  default [] (h !! r).

(** The state of [remove_outliers] while it runs, with [positions] a
    reference. *)
Record heap_state (B : Type) : Type := {
  hs_self : PDSteeringEngine B;
  hs_heap : gmap loc (list point);
  hs_positions : loc;
  hs_previous_num_positions : option nat
}.

(** The state of the value-level loop that a store-level state stands for,
    given the ghost fields. *)
Definition view {B : Type} (calls : list (list point)) (n : nat)
    (st : heap_state B) : loop_state B :=
  {| self := hs_self st;
     positions := deref (hs_heap st) (hs_positions st);
     previous_num_positions := hs_previous_num_positions st;
     fit_calls := calls;
     passes := n |}.

Definition outcome_map {A A' : Type} (f : A -> A') (m : outcome A) : outcome A' :=
  x <- m ;; Returns (f x).

Section Store.

Context {B : Type} {BC : BacklashCompensator B}.
Variable line_of_best_fit : list point -> line.

#[local] Abbreviation engine := (PDSteeringEngine B).
#[local] Abbreviation hstate := (heap_state B).

(** The body of the [while].  The [for] runs over [list(positions)], a
    snapshot that nothing else refers to; [positions.remove(...)] updates the
    object that [positions] refers to. *)
Definition heap_loop_body (st : hstate) : outcome hstate :=
  let ps := deref (hs_heap st) (hs_positions st) in
  let previous := Some (length ps) in
  let e := set_center_line_of_best_fit (hs_self st)
             (Some (line_of_best_fit ps)) in
  g <- scan e ps (None, None) ;;
  let greatest_distance_value := fst g in
  let greatest_distance_position := snd g in
  h' <- (if gt greatest_distance_value (Some (max_distance_from_line e))
         then ps' <- remove_position greatest_distance_position ps ;;
              Returns (<[hs_positions st := ps']> (hs_heap st))
         else Returns (hs_heap st)) ;;
  Returns {| hs_self := e;
             hs_heap := h';
             hs_positions := hs_positions st;
             hs_previous_num_positions := previous |}.

Lemma deref_insert (h : gmap loc (list point)) (r : loc) (ps : list point) :
  deref (<[r := ps]> h) r = ps.
Proof. unfold deref. rewrite lookup_insert_eq. reflexivity. Qed.

(** A pass over the store is a pass of the value-level loop. *)
Lemma view_loop_body (calls : list (list point)) (n : nat) (st : hstate) :
  loop_body line_of_best_fit (view calls n st) =
  outcome_map (view (deref (hs_heap st) (hs_positions st) :: calls) (S n))
    (heap_loop_body st).
Proof.
  unfold loop_body, heap_loop_body, outcome_map, view.
  cbn [store_line_of_best_fit self positions fit_calls passes
       previous_num_positions].
  destruct (scan _ _ _) as [g|]; cbn [bind]; [|reflexivity].
  match goal with |- context [gt ?a ?b] => destruct (gt a b) end;
    cbn [bind]; [|reflexivity].
  destruct (remove_position _ _) as [ps'|]; cbn [bind]; [|reflexivity].
  cbn [hs_self hs_heap hs_positions hs_previous_num_positions].
  rewrite deref_insert. reflexivity.
Qed.

Lemma heap_loop_body_decreases (st st' : hstate) :
  loop_cond (view [] 0 st) = true ->
  heap_loop_body st = Returns st' ->
  (loop_measure (view [] 0 st') < loop_measure (view [] 0 st))%nat.
Proof.
  intros C H.
  pose proof (view_loop_body [] 0 st) as V. rewrite H in V.
  pose proof (loop_body_decreases line_of_best_fit _ C V) as D.
  exact D.
Qed.

(** [while len(positions) != previous_num_positions: ...]. *)
Equations heap_while_loop (st : hstate) : outcome hstate
    by wf (loop_measure (view [] 0 st)) lt :=
  heap_while_loop st with inspect (loop_cond (view [] 0 st)) := {
    | exist _ false _ => Returns st
    | exist _ true C with inspect (heap_loop_body st) := {
        | exist _ (Raises e) _ => Raises e
        | exist _ (Returns st') H => heap_while_loop st' } }.
Next Obligation.
  apply heap_loop_body_decreases; assumption.
Qed.

(** [remove_outliers] called with the reference [positions0]: the engine and
    the store after the call, and the reference returned.
    [positions = list(positions)] allocates a new object. *)
Definition heap_remove_outliers (e : engine) (h : gmap loc (list point))
    (positions0 : loc) : outcome (engine * loc * gmap loc (list point)) :=
  let positions := fresh (dom h) in
  let h := <[positions := deref h positions0]> h in
  st <- heap_while_loop {| hs_self := e;
                           hs_heap := h;
                           hs_positions := positions;
                           hs_previous_num_positions := None |} ;;
  let e := set_center_line_of_best_fit (hs_self st)
             (Some (line_of_best_fit (deref (hs_heap st) (hs_positions st)))) in
  Returns (e, hs_positions st, hs_heap st).

(** [compute_steering_angle] called with the reference [center_points]. *)
Definition heap_compute_steering_angle (e : engine)
    (h : gmap loc (list point)) (center_points : loc)
    : outcome (option (Q * Q * Q) * engine * gmap loc (list point)) :=
  if (length (deref h center_points) <? 2)%nat then Returns (None, e, h)
  else
    r <- heap_remove_outliers e h center_points ;;
    s <- steer (fst (fst r)) ;;
    Returns (s, snd r).

End Store.

(** ** The same methods on binary64 floats

    Python's [float] is IEEE 754 binary64, and so is the primitive type
    [float]: [+], [-], [*], [abs] and the comparisons below are the
    operations the interpreter performs, rounding to nearest even, with
    infinities on overflow and NaN for an undefined result; every comparison
    with NaN is false.  This module is the embedding above with [float] for
    [Q], and without the ghost fields.  Equality of points in [list.remove] is
    componentwise [==]; the interpreter also takes an object to be equal to
    itself, which differs for a point that holds a NaN coordinate, so such
    points are outside this model. *)

Module Float64.

#[local] Open Scope float_scope.

Definition point : Type := (float * float)%type.
Definition line : Type := (float * float)%type.

(** Python 2 [a > b] where either side may be [None]. *)
Definition gt (a b : option float) : bool :=
  match a, b with
  | Some a, Some b => b <? a
  | Some _, None => true
  | None, _ => false
  end.

Definition point_eqb (p q : point) : bool :=
  (fst p =? fst q) && (snd p =? snd q).

Fixpoint list_remove (x : point) (l : list point) : outcome (list point) :=
  match l with
  | [] => Raises ValueError
  | p :: l' =>
      if point_eqb p x then Returns l'
      else l'' <- list_remove x l' ;; Returns (p :: l'')
  end.

Class BacklashCompensator (B : Type) : Type := {
  new_compensator : B;
  process : B -> float -> float * B
}.

Record PDSteeringEngine (B : Type) : Type := {
  proportional_multiplier : float;
  derivative_multiplier : float;
  max_distance_from_line : float;
  ideal_center_x : float;
  center_y : float;
  steering_limit : float;
  backlash_compensator : B;
  center_line_of_best_fit : option line;
  errors : option (float * float)
}.

Record loop_state (B : Type) : Type := {
  self : PDSteeringEngine B;
  positions : list point;
  previous_num_positions : option nat
}.

Section Engine.

Context {B : Type} {BC : BacklashCompensator B}.
Variable line_of_best_fit : list point -> line.

#[local] Abbreviation engine := (PDSteeringEngine B).
#[local] Abbreviation state := (loop_state B).

Definition __init__ (proportional_multiplier derivative_multiplier
                     max_distance_from_line ideal_center_x center_y
                     steering_limit : float) : engine :=
  {| proportional_multiplier := proportional_multiplier;
     derivative_multiplier := derivative_multiplier;
     max_distance_from_line := max_distance_from_line;
     ideal_center_x := ideal_center_x;
     center_y := center_y;
     steering_limit := steering_limit;
     backlash_compensator := new_compensator;
     center_line_of_best_fit := None;
     errors := None |}.

Definition set_center_line_of_best_fit (e : engine) (l : option line)
    : engine :=
  {| proportional_multiplier := proportional_multiplier e;
     derivative_multiplier := derivative_multiplier e;
     max_distance_from_line := max_distance_from_line e;
     ideal_center_x := ideal_center_x e;
     center_y := center_y e;
     steering_limit := steering_limit e;
     backlash_compensator := backlash_compensator e;
     center_line_of_best_fit := l;
     errors := errors e |}.

Definition set_errors (e : engine) (v : option (float * float)) : engine :=
  {| proportional_multiplier := proportional_multiplier e;
     derivative_multiplier := derivative_multiplier e;
     max_distance_from_line := max_distance_from_line e;
     ideal_center_x := ideal_center_x e;
     center_y := center_y e;
     steering_limit := steering_limit e;
     backlash_compensator := backlash_compensator e;
     center_line_of_best_fit := center_line_of_best_fit e;
     errors := v |}.

Definition set_backlash_compensator (e : engine) (b : B) : engine :=
  {| proportional_multiplier := proportional_multiplier e;
     derivative_multiplier := derivative_multiplier e;
     max_distance_from_line := max_distance_from_line e;
     ideal_center_x := ideal_center_x e;
     center_y := center_y e;
     steering_limit := steering_limit e;
     backlash_compensator := b;
     center_line_of_best_fit := center_line_of_best_fit e;
     errors := errors e |}.

Definition read_line (e : engine) : outcome line :=
  match center_line_of_best_fit e with
  | Some l => Returns l
  | None => Raises TypeError
  end.

Definition store_line_of_best_fit (st : state) : state :=
  {| self := set_center_line_of_best_fit (self st)
               (Some (line_of_best_fit (positions st)));
     positions := positions st;
     previous_num_positions := previous_num_positions st |}.

Definition scan_step (e : engine) (acc : option float * option point)
    (position : point) : outcome (option float * option point) :=
  let y_position := fst position in
  let x_position := snd position in
  l <- read_line e ;;
  let predicted_x_position := (snd l * y_position) + fst l in
  let current_distance := abs (predicted_x_position - x_position) in
  if gt (Some current_distance) (fst acc)
  then Returns (Some current_distance, Some position)
  else Returns acc.

Fixpoint scan (e : engine) (ps : list point)
    (acc : option float * option point)
    : outcome (option float * option point) :=
  match ps with
  | [] => Returns acc
  | position :: ps' => acc' <- scan_step e acc position ;; scan e ps' acc'
  end.

Definition remove_position (gp : option point) (ps : list point)
    : outcome (list point) :=
  match gp with
  | Some p => list_remove p ps
  | None => Raises ValueError
  end.

Definition loop_cond (st : state) : bool :=
  match previous_num_positions st with
  | None => true
  | Some n => negb (length (positions st) =? n)%nat
  end.

Definition loop_body (st : state) : outcome state :=
  let previous := Some (length (positions st)) in
  let st1 := store_line_of_best_fit st in
  g <- scan (self st1) (positions st1) (None, None) ;;
  let greatest_distance_value := fst g in
  let greatest_distance_position := snd g in
  ps' <- (if gt greatest_distance_value
                (Some (max_distance_from_line (self st1)))
          then remove_position greatest_distance_position (positions st1)
          else Returns (positions st1)) ;;
  Returns {| self := self st1;
             positions := ps';
             previous_num_positions := previous |}.

Lemma float_list_remove_length (x : point) (l l' : list point) :
  list_remove x l = Returns l' -> S (length l') = length l.
Proof.
  revert l'. induction l as [|p l IH]; intros l' H; cbn [list_remove] in H.
  - discriminate.
  - destruct (point_eqb p x).
    + injection H as <-. reflexivity.
    + destruct (list_remove x l) as [l2|]; cbn [bind] in H; [|discriminate].
      injection H as <-. cbn [length]. rewrite (IH l2); reflexivity.
Qed.

Definition loop_measure (st : state) : nat :=
  if loop_cond st then S (length (positions st)) else 0.

Lemma float_loop_body_decreases (st st' : state) :
  loop_cond st = true ->
  loop_body st = Returns st' ->
  (loop_measure st' < loop_measure st)%nat.
Proof.
  intros C H. unfold loop_measure. rewrite C.
  assert (previous_num_positions st' = Some (length (positions st)) /\
          (length (positions st') <= length (positions st))%nat) as [P L].
  { unfold loop_body in H.
    destruct (scan _ _ _) as [g|]; cbn [bind] in H; [|discriminate].
    match type of H with context [gt ?a ?b] => destruct (gt a b) end;
      cbn [bind] in H.
    - destruct (remove_position _ _) as [ps'|] eqn:R; cbn [bind] in H;
        [|discriminate].
      injection H as <-. cbn [previous_num_positions positions].
      split; [reflexivity|].
      unfold remove_position in R. destruct (snd g); [|discriminate].
      apply float_list_remove_length in R.
      cbn [store_line_of_best_fit positions] in R. lia.
    - injection H as <-. cbn [previous_num_positions positions].
      split; [reflexivity|]. cbn [store_line_of_best_fit positions]. lia. }
  unfold loop_cond. rewrite P.
  destruct (Nat.eqb_spec (length (positions st')) (length (positions st)));
    cbn [negb]; lia.
Qed.

Equations while_loop (st : state) : outcome state by wf (loop_measure st) lt :=
  while_loop st with inspect (loop_cond st) := {
    | exist _ false _ => Returns st
    | exist _ true C with inspect (loop_body st) := {
        | exist _ (Raises e) _ => Raises e
        | exist _ (Returns st') H => while_loop st' } }.
Next Obligation.
  apply float_loop_body_decreases; assumption.
Qed.

Definition remove_outliers (e : engine) (positions0 : list point)
    : outcome (engine * list point) :=
  st <- while_loop {| self := e;
                      positions := positions0;
                      previous_num_positions := None |} ;;
  let st := store_line_of_best_fit st in
  Returns (self st, positions st).

(** The two tests that end [compute_steering_angle].  Both are false when
    [steering_angle] is NaN. *)
Definition clamp (steering_limit steering_angle : float) : float :=
  if steering_limit <? steering_angle then steering_limit
  else if steering_angle <? - steering_limit then - steering_limit
  else steering_angle.

Definition steer (e : engine) : outcome (option (float * float * float) * engine) :=
  l <- read_line e ;;
  let line_intercept := fst l in
  let line_slope := snd l in
  let center_x := (center_y e * line_slope) + line_intercept in
  let proportional_error := ideal_center_x e - center_x in
  let e := set_errors e (Some (proportional_error, line_slope)) in
  let steering_angle :=
    (proportional_error * proportional_multiplier e)
    + (line_slope * derivative_multiplier e) in
  let c := process (backlash_compensator e) steering_angle in
  let steering_angle := fst c in
  let e := set_backlash_compensator e (snd c) in
  let steering_angle := clamp (steering_limit e) steering_angle in
  Returns (Some (steering_angle, proportional_error, line_slope), e).

Definition compute_steering_angle (e : engine) (center_points : list point)
    : outcome (option (float * float * float) * engine) :=
  if (length center_points <? 2)%nat then Returns (None, e)
  else
    r <- remove_outliers e center_points ;;
    steer (fst r).

End Engine.

(** The compensator that returns its input and has no state. *)
#[export] Instance identity_compensator : BacklashCompensator unit := {
  new_compensator := tt;
  process := fun b v => (v, b)
}.

Definition sum (l : list float) : float := fold_right PrimFloat.add 0 l.

(** [float(n)], exact for the lengths at hand. *)
Fixpoint float_of_nat (n : nat) : float :=
  match n with
  | O => 0
  | S k => float_of_nat k + 1
  end.

(** Modelled from the spec: [line_of_best_fit] is imported from
    [infer/line_of_best_fit.py], which is not among the sources; the spec
    describes it as a pure least-squares fit of [x = slope * y + intercept].
    This is the closed form of ordinary least squares of [x] on [y], in
    binary64.  Both divisors are zero only for the empty list and for points
    that all share one [y]; on the points below they are [1] and [2]. *)
Definition least_squares (ps : list point) : line :=
  let n := float_of_nat (length ps) in
  let sy := sum (map fst ps) in
  let sx := sum (map snd ps) in
  let syy := sum (map (fun p => fst p * fst p) ps) in
  let syx := sum (map (fun p => fst p * snd p) ps) in
  let slope := (n * syx - sy * sx) / (n * syy - sy * sy) in
  let intercept := (sx - slope * sy) / n in
  (intercept, slope).

(** Two points, which any least-squares fit passes through: the line is
    [x = 10 * y]. *)
Definition steep_points : list point := [(0, 0); (1, 10)].

(** An engine with steering limit [50] and two gains that are finite but
    near the largest binary64 value. *)
Definition high_gain_engine : PDSteeringEngine unit :=
  __init__ 0x1p+1023 0x1p+1023 5 0 2 50.

End Float64.

(** ** Two concrete collaborators *)

(** The compensator that returns its input and has no state. *)
#[export] Instance identity_compensator : BacklashCompensator unit := {
  new_compensator := tt;
  process := fun b v => (v, b)
}.

Definition Qsum (l : list Q) : Q := fold_right Qplus 0 l.

(** Modelled from the spec: [line_of_best_fit] is imported from
    [infer/line_of_best_fit.py], which is not among the sources; the spec
    describes it as a pure least-squares fit of [x = slope * y + intercept].
    This is the closed form of ordinary least squares of [x] on [y], with
    both results reduced to lowest terms, which does not change their value.
    Division by zero yields zero in [Q]; it occurs only for the empty list and
    for points that all share one [y]. *)
Definition least_squares (ps : list point) : line :=
  let n := inject_Z (Z.of_nat (length ps)) in
  let sy := Qsum (map fst ps) in
  let sx := Qsum (map snd ps) in
  let syy := Qsum (map (fun p => fst p * fst p) ps) in
  let syx := Qsum (map (fun p => fst p * snd p) ps) in
  let slope := (n * syx - sy * sx) / (n * syy - sy * sy) in
  let intercept := (sx - slope * sy) / n in
  (Qred intercept, Qred slope).

Definition example_points : list point := [(0, 0); (1, 0); (2, 0); (3, 100)].
Definition example_engine : PDSteeringEngine unit := __init__ 1 0 5 0 2 50.

(** The engine of the example once it holds a line and errors from an
    earlier call. *)
Definition used_engine : PDSteeringEngine unit :=
  set_errors (set_center_line_of_best_fit example_engine (Some (7, 1)))
    (Some (3, 1)).

(** An input of one point. *)
Definition single_point : list point := [(1, 2)].

(** A store with one object, the caller's list. *)
Definition example_store : gmap loc (list point) :=
  {[ 1%positive := example_points ]}.

(** A compensator with a state: it adds the value of the call before to the
    value it is given. *)
#[export] Instance lagging_compensator : BacklashCompensator Q := {
  new_compensator := 0;
  process := fun b v => (v + b, v)
}.

(** The engine of the example with that compensator. *)
Definition lagging_engine : PDSteeringEngine Q := __init__ 1 0 5 0 2 50.

(** ** Vocabulary of the statements *)

(** The absolute horizontal residual of a point against a line, as the loop
    computes it. *)
Definition residual (l : line) (p : point) : Q :=
  Qabs ((snd l * fst p) + fst l - snd p).

(** [selected l ps i p]: [p] is the element of [ps] at index [i], no element
    of [ps] has a greater residual, and every element before index [i] has a
    strictly smaller one. *)
Definition selected (l : line) (ps : list point) (i : nat) (p : point) : Prop :=
  nth_error ps i = Some p /\
  (forall j q, nth_error ps j = Some q -> (residual l q <= residual l p)%Q) /\
  (forall j q, (j < i)%nat -> nth_error ps j = Some q ->
               (residual l q < residual l p)%Q).

(** What the scan holds after it has seen the points [seen]. *)
Definition scan_invariant (l : line) (seen : list point)
    (acc : option Q * option point) : Prop :=
  match acc with
  | (None, None) => seen = []
  | (Some d, Some p) => d = residual l p /\ exists i, selected l seen i p
  | _ => False
  end.

(** What one pass does to the working set [ps], given the line [l] fitted to
    it and the threshold [m]: on the empty set nothing; otherwise the first
    point of greatest residual is the candidate, and it, alone, is removed
    exactly when its residual exceeds [m]. *)
Definition pass_result (l : line) (m : Q) (ps ps' : list point) : Prop :=
  match ps with
  | [] => ps' = []
  | _ :: _ =>
      exists i p, selected l ps i p /\
        ((m < residual l p)%Q -> ps' = firstn i ps ++ skipn (S i) ps) /\
        ((residual l p <= m)%Q -> ps' = ps)
  end.

(** Two engines with the same tuning constants and the same compensator
    state; the stored line and errors may differ. *)
Definition same_tuning {B : Type} (e1 e2 : PDSteeringEngine B) : Prop :=
  proportional_multiplier e1 = proportional_multiplier e2 /\
  derivative_multiplier e1 = derivative_multiplier e2 /\
  max_distance_from_line e1 = max_distance_from_line e2 /\
  ideal_center_x e1 = ideal_center_x e2 /\
  center_y e1 = center_y e2 /\
  steering_limit e1 = steering_limit e2 /\
  backlash_compensator e1 = backlash_compensator e2.

(** Two loop states that differ in the stored line and errors at most. *)
Definition same_state {B : Type} (st1 st2 : loop_state B) : Prop :=
  same_tuning (self st1) (self st2) /\
  positions st1 = positions st2 /\
  previous_num_positions st1 = previous_num_positions st2 /\
  fit_calls st1 = fit_calls st2 /\
  passes st1 = passes st2.

(** What holds between passes of a run started by engine [e] on [n] points:
    [self] differs from [e] in the stored line at most, and every pass so far
    but the last removed one point. *)
Definition run_invariant {B : Type} (e : PDSteeringEngine B) (n : nat)
    (st : loop_state B) : Prop :=
  (exists l, self st = set_center_line_of_best_fit e l) /\
  (passes st + length (positions st) = if loop_cond st then n else S n)%nat /\
  (length (positions st) <= n)%nat.

(** The raw steering value of an engine for a fitted line: the PD law before
    backlash compensation and clamping. *)
Definition raw_steering {B : Type} (e : PDSteeringEngine B) (l : line) : Q :=
  ((ideal_center_x e - (snd l * center_y e + fst l)) * proportional_multiplier e
   + snd l * derivative_multiplier e)%Q.

(** What holds between the passes of [remove_outliers] called by an engine of
    threshold [m] on the list [ps0]: the working set is [ps0] with some
    elements left out, in the same order; [line_of_best_fit] was called once
    per pass; and once the loop test fails, the last pass was on the working
    set as it is and found every point within [m] of the line it fitted. *)
Definition trim_invariant {B : Type} (fit : list point -> line) (m : Q)
    (ps0 : list point) (st : loop_state B) : Prop :=
  max_distance_from_line (self st) = m /\
  sublist (positions st) ps0 /\
  length (fit_calls st) = passes st /\
  (loop_cond st = false ->
   Forall (fun p => residual (fit (positions st)) p <= m) (positions st) /\
   exists rest, fit_calls st = positions st :: rest).

(** * Properties *)

(** ** Comparisons *)

Lemma Qgtb_true (a b : Q) : Qgtb a b = true <-> (b < a)%Q.
Proof.
  unfold Qgtb. rewrite (Qgt_alt a b).
  destruct (a ?= b); split; intros H; try reflexivity; discriminate.
Qed.

Lemma Qgtb_false (a b : Q) : Qgtb a b = false <-> (a <= b)%Q.
Proof.
  split; intros H.
  - apply Qnot_lt_le. intros L. apply Qgtb_true in L. congruence.
  - destruct (Qgtb a b) eqn:E; [|reflexivity].
    apply Qgtb_true in E. exfalso. exact (Qlt_not_le _ _ E H).
Qed.

Lemma point_eqb_true (p q : point) :
  point_eqb p q = true <-> (fst p == fst q /\ snd p == snd q)%Q.
Proof.
  unfold point_eqb. rewrite andb_true_iff, !Qeq_bool_iff. reflexivity.
Qed.

(** ** The scan for the greatest residual *)

Section Scan.

Context {B : Type}.
Variable e : PDSteeringEngine B.
Variable l : line.
Hypothesis stored : center_line_of_best_fit e = Some l.

Lemma scan_step_returns (acc : option Q * option point) (position : point) :
  scan_step e acc position =
  Returns (if gt (Some (residual l position)) (fst acc)
           then (Some (residual l position), Some position)
           else acc).
Proof.
  unfold scan_step, read_line, residual. rewrite stored. cbn [bind].
  match goal with |- context [gt ?a ?b] => destruct (gt a b) end; reflexivity.
Qed.

Lemma scan_step_invariant (seen : list point) (acc acc' : option Q * option point)
    (position : point) :
  scan_invariant l seen acc ->
  scan_step e acc position = Returns acc' ->
  scan_invariant l (seen ++ [position]) acc'.
Proof.
  intros I. rewrite scan_step_returns. intros H. injection H as <-.
  destruct acc as [[d|] [p|]]; simpl in I; try contradiction; simpl.
  - destruct I as [-> [i (N & G & F)]].
    destruct (Qgtb (residual l position) (residual l p)) eqn:C.
    + apply Qgtb_true in C. simpl. split; [reflexivity|].
      exists (length seen). repeat split.
      * rewrite nth_error_app2, Nat.sub_diag by lia. reflexivity.
      * intros j q Hj.
        destruct (Nat.lt_ge_cases j (length seen)) as [Lt|Ge].
        -- rewrite nth_error_app1 in Hj by assumption.
           apply Qle_trans with (residual l p); [exact (G j q Hj)|].
           apply Qlt_le_weak, C.
        -- rewrite nth_error_app2 in Hj by assumption.
           destruct (j - length seen)%nat as [|k]; simpl in Hj.
           ++ injection Hj as <-. apply Qle_refl.
           ++ destruct k; discriminate.
      * intros j q Lt Hj. rewrite nth_error_app1 in Hj by assumption.
        apply Qle_lt_trans with (residual l p); [exact (G j q Hj)|exact C].
    + apply Qgtb_false in C. simpl. split; [reflexivity|].
      assert (i < length seen)%nat as Li
        by (apply nth_error_Some; rewrite N; discriminate).
      exists i. repeat split.
      * rewrite nth_error_app1 by assumption. exact N.
      * intros j q Hj.
        destruct (Nat.lt_ge_cases j (length seen)) as [Lt|Ge].
        -- rewrite nth_error_app1 in Hj by assumption. exact (G j q Hj).
        -- rewrite nth_error_app2 in Hj by assumption.
           destruct (j - length seen)%nat as [|k]; simpl in Hj.
           ++ injection Hj as <-. exact C.
           ++ destruct k; discriminate.
      * intros j q Lt Hj. rewrite nth_error_app1 in Hj by lia.
        exact (F j q Lt Hj).
  - subst seen. split; [reflexivity|]. exists 0%nat. repeat split.
    + intros [|[|j]] q Hj; simpl in Hj; try discriminate.
      injection Hj as <-. apply Qle_refl.
    + intros j q Lt. lia.
Qed.

Lemma scan_invariant_preserved (ps seen : list point)
    (acc : option Q * option point) :
  scan_invariant l seen acc ->
  exists acc', scan e ps acc = Returns acc' /\
               scan_invariant l (seen ++ ps) acc'.
Proof.
  revert seen acc. induction ps as [|p ps IH]; intros seen acc I; simpl.
  - exists acc. rewrite app_nil_r. split; [reflexivity|assumption].
  - pose proof (scan_step_returns acc p) as S. rewrite S. cbn [bind].
    pose proof (@scan_step_invariant seen acc _ p I S) as I1.
    destruct (IH _ _ I1) as [acc' [R I']].
    exists acc'. rewrite <- app_assoc in I'. split; assumption.
Qed.

(** The scan of a whole list: nothing on the empty list, otherwise the first
    point of greatest residual. *)
Lemma scan_selects (ps : list point) :
  exists acc, scan e ps (None, None) = Returns acc /\
    match ps with
    | [] => acc = (None, None)
    | _ :: _ => exists i p, acc = (Some (residual l p), Some p) /\
                            selected l ps i p
    end.
Proof.
  destruct (@scan_invariant_preserved ps [] (None, None) eq_refl)
    as [acc [R I]].
  exists acc. split; [exact R|]. simpl in I.
  destruct ps as [|p0 ps].
  - simpl in R. injection R as <-. reflexivity.
  - destruct acc as [[d|] [p|]]; simpl in I; try contradiction; try discriminate.
    destruct I as [-> [i S]]. exists i, p. split; [reflexivity|exact S].
Qed.

End Scan.

(** ** Removing the selected point *)

Lemma residual_compat (l : line) (p q : point) :
  (fst p == fst q)%Q -> (snd p == snd q)%Q ->
  (residual l p == residual l q)%Q.
Proof.
  intros Hy Hx. unfold residual. rewrite Hy, Hx. reflexivity.
Qed.

Lemma point_eqb_refl (p : point) : point_eqb p p = true.
Proof. apply point_eqb_true. split; reflexivity. Qed.

(** [remove] drops the first element equal to its argument; no element
    before the selected one is equal to it, since its residual is smaller. *)
Lemma list_remove_first_greatest (l : line) (ps : list point) (i : nat)
    (p : point) :
  nth_error ps i = Some p ->
  (forall j q, (j < i)%nat -> nth_error ps j = Some q ->
               (residual l q < residual l p)%Q) ->
  list_remove p ps = Returns (firstn i ps ++ skipn (S i) ps).
Proof.
  revert i. induction ps as [|a ps IH]; intros i N F.
  - destruct i; discriminate.
  - destruct i as [|i]; cbn [list_remove].
    + injection N as ->. rewrite point_eqb_refl. reflexivity.
    + destruct (point_eqb a p) eqn:E.
      * exfalso. apply point_eqb_true in E. destruct E as [Hy Hx].
        pose proof (residual_compat l _ _ Hy Hx) as R.
        pose proof (F 0%nat a (Nat.lt_0_succ i) eq_refl) as L.
        rewrite R in L. exact (Qlt_irrefl _ L).
      * rewrite (IH i).
        -- reflexivity.
        -- exact N.
        -- intros j q Lt Hj. apply (F (S j) q); [lia|exact Hj].
Qed.

(** ** One pass of the trimming loop *)

Section Trimming.

Context {B : Type} {BC : BacklashCompensator B}.
Variable line_of_best_fit : list point -> line.

#[local] Abbreviation state := (loop_state B).
#[local] Abbreviation body := (loop_body line_of_best_fit).
#[local] Abbreviation loop := (while_loop line_of_best_fit).

Lemma loop_body_spec (st : state) :
  exists ps',
    body st =
      Returns {| self := set_center_line_of_best_fit (self st)
                           (Some (line_of_best_fit (positions st)));
                 positions := ps';
                 previous_num_positions := Some (length (positions st));
                 fit_calls := positions st :: fit_calls st;
                 passes := S (passes st) |} /\
    pass_result (line_of_best_fit (positions st))
                (max_distance_from_line (self st)) (positions st) ps'.
Proof.
  unfold loop_body, pass_result.
  cbn [store_line_of_best_fit self positions fit_calls passes].
  set (l := line_of_best_fit (positions st)).
  destruct (@scan_selects B (set_center_line_of_best_fit (self st) (Some l)) l
              eq_refl (positions st)) as [acc [R S]].
  rewrite R. cbn [bind].
  destruct (positions st) as [|p0 ps] eqn:P.
  - subst acc. cbn. exists []. split; reflexivity.
  - destruct S as [i [p [-> S]]]. cbn [fst snd gt max_distance_from_line
      set_center_line_of_best_fit remove_position].
    destruct (Qgtb (residual l p) (max_distance_from_line (self st))) eqn:C.
    + apply Qgtb_true in C.
      destruct S as (N & G & F).
      rewrite (@list_remove_first_greatest l _ _ _ N F). cbn [bind].
      eexists. split; [reflexivity|].
      exists i, p. split; [exact (conj N (conj G F))|]. split.
      * reflexivity.
      * intros Le. exfalso. exact (Qlt_not_le _ _ C Le).
    + apply Qgtb_false in C. cbn [bind].
      eexists. split; [reflexivity|].
      exists i, p. split; [exact S|]. split.
      * intros Lt. exfalso. exact (Qlt_not_le _ _ Lt C).
      * reflexivity.
Qed.

Lemma while_loop_step (st : state) :
  loop st = if loop_cond st then st' <- body st ;; loop st' else Returns st.
Proof.
  funelim (while_loop line_of_best_fit st);
    match goal with C : loop_cond _ = _ |- _ => rewrite C end;
    try match goal with E : loop_body _ _ = _ |- _ => rewrite E end;
    reflexivity.
Qed.

(** A pass keeps the working set or shortens it by one. *)
Lemma pass_result_length (l : line) (m : Q) (ps ps' : list point) :
  pass_result l m ps ps' -> ps' = ps \/ S (length ps') = length ps.
Proof.
  unfold pass_result. destruct ps as [|p0 ps].
  - intros ->. left. reflexivity.
  - intros [i [p [(N & _ & _) [Rm Keep]]]].
    destruct (Qlt_le_dec m (residual l p)) as [Lt|Le].
    + right. rewrite (Rm Lt).
      assert (i < length (p0 :: ps))%nat as Li
        by (apply nth_error_Some; rewrite N; discriminate).
      rewrite length_app, length_firstn, length_skipn. lia.
    + left. exact (Keep Le).
Qed.

(** Invariants of the loop: the loop returns, in a state where its test
    fails and every invariant of the body holds. *)
Lemma while_loop_invariant (I : state -> Prop) :
  (forall st st', I st -> loop_cond st = true -> body st = Returns st' -> I st') ->
  forall st, I st ->
  exists st', loop st = Returns st' /\ I st' /\ loop_cond st' = false.
Proof.
  intros Step st.
  remember (loop_measure st) as n eqn:M.
  revert st M. induction n as [n IH] using lt_wf_ind. intros st M Ist.
  rewrite while_loop_step. destruct (loop_cond st) eqn:C.
  - destruct (loop_body_spec st) as [ps' [Hb _]]. rewrite Hb. cbn [bind].
    apply (IH (loop_measure _)) with (2 := eq_refl).
    + subst n. apply (loop_body_decreases line_of_best_fit st C Hb).
    + exact (Step _ _ Ist C Hb).
  - exists st. repeat split; assumption.
Qed.

(** The loop test after a pass: true exactly when the pass removed a point. *)
Lemma loop_cond_after_body (st st' : state) :
  body st = Returns st' ->
  loop_cond st' = negb (length (positions st') =? length (positions st))%nat.
Proof.
  intros H. unfold loop_cond.
  rewrite (loop_body_previous line_of_best_fit st H). reflexivity.
Qed.

(** *** The whole of remove_outliers *)

Lemma set_center_line_of_best_fit_idem (e : PDSteeringEngine B)
    (l l' : option line) :
  set_center_line_of_best_fit (set_center_line_of_best_fit e l) l' =
  set_center_line_of_best_fit e l'.
Proof. reflexivity. Qed.

Lemma set_center_line_of_best_fit_same (e : PDSteeringEngine B) :
  set_center_line_of_best_fit e (center_line_of_best_fit e) = e.
Proof. destruct e; reflexivity. Qed.

Lemma run_invariant_body (e : PDSteeringEngine B) (n : nat) (st st' : state) :
  run_invariant e n st -> loop_cond st = true -> body st = Returns st' ->
  run_invariant e n st'.
Proof.
  intros [[l Hs] [Hp Hn]] C Hb. rewrite C in Hp.
  unfold run_invariant. rewrite (loop_cond_after_body st Hb).
  destruct (loop_body_spec st) as [ps' [Hb' R]].
  rewrite Hb' in Hb. injection Hb as <-.
  cbn [self positions passes]. split.
  - exists (Some (line_of_best_fit (positions st))). rewrite Hs. reflexivity.
  - apply pass_result_length in R. destruct R as [->|L].
    + rewrite Nat.eqb_refl. cbn [negb]. lia.
    + destruct (Nat.eqb_spec (length ps') (length (positions st)));
        cbn [negb]; lia.
Qed.

(** [remove_outliers] returns.  The engine it leaves differs from the one it
    was called on in the stored line only, which is the fit of the list
    returned; the last call of [line_of_best_fit] is on that list; and the
    number of passes is one more than the number of points removed. *)
Lemma remove_outliers_run_spec (e : PDSteeringEngine B) (ps0 : list point) :
  exists st,
    remove_outliers_run line_of_best_fit e ps0 = Returns st /\
    self st = set_center_line_of_best_fit e
                (Some (line_of_best_fit (positions st))) /\
    (passes st + length (positions st) = S (length ps0))%nat /\
    (length (positions st) <= length ps0)%nat /\
    exists calls, fit_calls st = positions st :: calls.
Proof.
  unfold remove_outliers_run.
  destruct (@while_loop_invariant (run_invariant e (length ps0))
              (run_invariant_body (e:=e) (n:=length ps0))
              {| self := e; positions := ps0; previous_num_positions := None;
                 fit_calls := []; passes := 0 |})
    as [st [Hl [[[l Hs] [Hp Hn]] C]]].
  - split.
    + exists (center_line_of_best_fit e). cbn [self].
      symmetry. apply set_center_line_of_best_fit_same.
    + split; [reflexivity|]. cbn [positions]. lia.
  - rewrite Hl. cbn [bind]. eexists. split; [reflexivity|].
    cbn [store_line_of_best_fit self positions passes fit_calls].
    rewrite C in Hp. repeat split.
    + rewrite Hs. reflexivity.
    + exact Hp.
    + exact Hn.
    + eexists. reflexivity.
Qed.

Lemma remove_outliers_spec (e : PDSteeringEngine B) (ps0 : list point) :
  exists ps,
    remove_outliers line_of_best_fit e ps0 =
      Returns (set_center_line_of_best_fit e (Some (line_of_best_fit ps)), ps) /\
    (length ps <= length ps0)%nat.
Proof.
  unfold remove_outliers.
  destruct (remove_outliers_run_spec e ps0) as [st (Hr & Hs & _ & Hn & _)].
  rewrite Hr. cbn [bind]. exists (positions st). rewrite <- Hs.
  split; [reflexivity|exact Hn].
Qed.

End Trimming.

(** ** The steering computation *)

Lemma Qmult_comm_eq (a b : Q) : (a * b)%Q = (b * a)%Q.
Proof.
  unfold Qmult. f_equal; [apply Z.mul_comm|apply Pos.mul_comm].
Qed.

Lemma clamp_bounds (L a : Q) :
  (0 <= L)%Q -> (- L <= clamp L a)%Q /\ (clamp L a <= L)%Q.
Proof.
  intros HL. unfold clamp.
  destruct (Qgtb a L) eqn:Hi.
  - split; [lra|apply Qle_refl].
  - apply Qgtb_false in Hi. destruct (Qgtb (- L) a) eqn:Lo.
    + split; [apply Qle_refl|lra].
    + apply Qgtb_false in Lo. split; assumption.
Qed.

Section Steering.

Context {B : Type} {BC : BacklashCompensator B}.
Variable line_of_best_fit : list point -> line.

#[local] Abbreviation engine := (PDSteeringEngine B).
#[local] Abbreviation compute := (compute_steering_angle line_of_best_fit).

Lemma compute_steering_angle_short (e : engine) (center_points : list point) :
  (length center_points < 2)%nat ->
  compute e center_points = Returns (None, e).
Proof.
  intros Len. unfold compute_steering_angle.
  destruct (Nat.ltb_spec (length center_points) 2) as [_|Ge]; [reflexivity|lia].
Qed.

Lemma compute_steering_angle_spec (e : engine) (center_points : list point) :
  (2 <= length center_points)%nat ->
  exists ps,
    remove_outliers line_of_best_fit e center_points =
      Returns (set_center_line_of_best_fit e (Some (line_of_best_fit ps)), ps) /\
    let l := line_of_best_fit ps in
    let proportional_error :=
      (ideal_center_x e - (snd l * center_y e + fst l))%Q in
    let c := process (backlash_compensator e) (raw_steering e l) in
    compute e center_points =
      Returns (Some (clamp (steering_limit e) (fst c), proportional_error, snd l),
               {| proportional_multiplier := proportional_multiplier e;
                  derivative_multiplier := derivative_multiplier e;
                  max_distance_from_line := max_distance_from_line e;
                  ideal_center_x := ideal_center_x e;
                  center_y := center_y e;
                  steering_limit := steering_limit e;
                  backlash_compensator := snd c;
                  center_line_of_best_fit := Some l;
                  errors := Some (proportional_error, snd l) |}).
Proof.
  intros Len. unfold compute_steering_angle.
  destruct (Nat.ltb_spec (length center_points) 2) as [Lt|_]; [lia|].
  destruct (remove_outliers_spec line_of_best_fit e center_points)
    as [ps [Hr _]].
  exists ps. split; [exact Hr|].
  rewrite Hr. unfold steer. cbn [bind fst snd read_line center_line_of_best_fit
    set_center_line_of_best_fit set_errors set_backlash_compensator
    center_y ideal_center_x proportional_multiplier derivative_multiplier
    backlash_compensator steering_limit max_distance_from_line errors].
  unfold raw_steering.
  rewrite (Qmult_comm_eq (center_y e) (snd (line_of_best_fit ps))).
  reflexivity.
Qed.

End Steering.

(** ** Two runs side by side *)

Section Lockstep.

Context {B : Type} {BC : BacklashCompensator B}.
Variable line_of_best_fit : list point -> line.

#[local] Abbreviation engine := (PDSteeringEngine B).
#[local] Abbreviation state := (loop_state B).

Lemma scan_same_line (e1 e2 : engine) (ps : list point)
    (acc : option Q * option point) :
  center_line_of_best_fit e1 = center_line_of_best_fit e2 ->
  scan e1 ps acc = scan e2 ps acc.
Proof.
  intros H. revert acc. induction ps as [|p ps IH]; intros acc.
  - reflexivity.
  - cbn [scan]. unfold scan_step, read_line. rewrite H.
    destruct (center_line_of_best_fit e2); cbn [bind]; [|reflexivity].
    match goal with |- context [gt ?a ?b] => destruct (gt a b) end;
      cbn [bind]; apply IH.
Qed.

Lemma loop_body_same (st1 st2 st1' : state) :
  same_state st1 st2 ->
  loop_body line_of_best_fit st1 = Returns st1' ->
  exists st2', loop_body line_of_best_fit st2 = Returns st2' /\
               same_state st1' st2' /\
               center_line_of_best_fit (self st1') =
               center_line_of_best_fit (self st2').
Proof.
  intros (T & P & Pr & F & N) H. unfold loop_body in *.
  cbn [store_line_of_best_fit self positions fit_calls passes] in *.
  rewrite <- P, <- F, <- N.
  rewrite <- (@scan_same_line
                (set_center_line_of_best_fit (self st1)
                   (Some (line_of_best_fit (positions st1))))
                (set_center_line_of_best_fit (self st2)
                   (Some (line_of_best_fit (positions st1)))))
    by reflexivity.
  destruct (scan _ _ _) as [g|]; cbn [bind] in *; [|discriminate].
  cbn [max_distance_from_line set_center_line_of_best_fit] in *.
  destruct T as (T1 & T2 & T3 & T4 & T5 & T6 & T7). rewrite <- T3.
  match goal with |- context [gt ?a ?b] => destruct (gt a b) end.
  - destruct (remove_position _ _) as [ps'|]; cbn [bind] in *; [|discriminate].
    injection H as <-. eexists. split; [reflexivity|].
    repeat split; assumption.
  - cbn [bind] in *. injection H as <-. eexists. split; [reflexivity|].
    repeat split; assumption.
Qed.

Lemma while_loop_same (st1 st2 : state) :
  same_state st1 st2 ->
  exists st1' st2',
    while_loop line_of_best_fit st1 = Returns st1' /\
    while_loop line_of_best_fit st2 = Returns st2' /\
    same_state st1' st2'.
Proof.
  remember (loop_measure st1) as n eqn:M.
  revert st1 st2 M. induction n as [n IH] using lt_wf_ind. intros st1 st2 M S.
  rewrite !while_loop_step.
  assert (loop_cond st2 = loop_cond st1) as C.
  { destruct S as (_ & P & Pr & _). unfold loop_cond. rewrite P, Pr.
    reflexivity. }
  rewrite C. destruct (loop_cond st1) eqn:C1.
  - destruct (loop_body_spec line_of_best_fit st1) as [ps' [Hb _]].
    destruct (loop_body_same S Hb) as [st2' (Hb2 & S' & _)].
    rewrite Hb, Hb2. cbn [bind].
    apply (IH (loop_measure _)) with (2 := eq_refl); [|exact S'].
    subst n. apply (loop_body_decreases line_of_best_fit st1 C1 Hb).
  - exists st1, st2. repeat split; try reflexivity; apply S.
Qed.

(** [remove_outliers] on two engines of the same tuning returns the same
    list and leaves engines of the same tuning and the same stored line. *)
Lemma remove_outliers_same (e1 e2 : engine) (ps0 : list point) :
  same_tuning e1 e2 ->
  exists ps,
    remove_outliers line_of_best_fit e1 ps0 =
      Returns (set_center_line_of_best_fit e1 (Some (line_of_best_fit ps)), ps) /\
    remove_outliers line_of_best_fit e2 ps0 =
      Returns (set_center_line_of_best_fit e2 (Some (line_of_best_fit ps)), ps).
Proof.
  intros T.
  destruct (remove_outliers_spec line_of_best_fit e1 ps0) as [ps1 [H1 _]].
  destruct (remove_outliers_spec line_of_best_fit e2 ps0) as [ps2 [H2 _]].
  exists ps1. split; [exact H1|]. rewrite H2.
  enough (ps2 = ps1) as -> by reflexivity.
  unfold remove_outliers, remove_outliers_run in H1, H2.
  destruct (@while_loop_same
              {| self := e1; positions := ps0; previous_num_positions := None;
                 fit_calls := []; passes := 0 |}
              {| self := e2; positions := ps0; previous_num_positions := None;
                 fit_calls := []; passes := 0 |})
    as [st1 [st2 (L1 & L2 & (_ & P & _))]].
  { repeat split; apply T. }
  rewrite L1 in H1. rewrite L2 in H2.
  cbn [bind store_line_of_best_fit self positions] in H1, H2.
  set (returned := fun r : outcome (engine * list point) =>
                     match r with Returns (_, ps) => ps | Raises _ => [] end).
  apply (f_equal returned) in H1, H2. cbn in H1, H2.
  rewrite <- H1, <- H2. symmetry. exact P.
Qed.

End Lockstep.

(** ** The store-level methods *)

Section StoreProperties.

Context {B : Type} {BC : BacklashCompensator B}.
Variable line_of_best_fit : list point -> line.

#[local] Abbreviation engine := (PDSteeringEngine B).
#[local] Abbreviation hstate := (heap_state B).

Lemma heap_while_loop_step (st : hstate) :
  heap_while_loop line_of_best_fit st =
  if loop_cond (view [] 0 st)
  then st' <- heap_loop_body line_of_best_fit st ;;
       heap_while_loop line_of_best_fit st'
  else Returns st.
Proof.
  funelim (heap_while_loop line_of_best_fit st);
    match goal with C : loop_cond _ = _ |- _ => rewrite C end;
    try match goal with E : heap_loop_body _ _ = _ |- _ => rewrite E end;
    reflexivity.
Qed.

(** The store-level loop runs as the value-level loop does on the list that
    [positions] refers to, and keeps every invariant of its body. *)
Lemma heap_while_loop_simulation (I : hstate -> Prop) :
  (forall st st', I st -> heap_loop_body line_of_best_fit st = Returns st' ->
                  I st') ->
  forall st calls n, I st ->
  exists st' calls' n',
    heap_while_loop line_of_best_fit st = Returns st' /\
    while_loop line_of_best_fit (view calls n st) =
      Returns (view calls' n' st') /\
    I st'.
Proof.
  intros Step st.
  remember (loop_measure (view [] 0 st)) as m eqn:M.
  revert st M. induction m as [m IH] using lt_wf_ind.
  intros st M calls n Ist.
  rewrite heap_while_loop_step, while_loop_step.
  change (loop_cond (view calls n st)) with (loop_cond (view [] 0 st)).
  destruct (loop_cond (view [] 0 st)) eqn:C.
  - rewrite view_loop_body.
    destruct (loop_body_spec line_of_best_fit (view [] 0 st)) as [ps' [Hb _]].
    rewrite view_loop_body in Hb. unfold outcome_map in *.
    destruct (heap_loop_body line_of_best_fit st) as [st1|] eqn:H1;
      cbn [bind] in *; [|discriminate].
    apply (IH (loop_measure (view [] 0 st1))) with (2 := eq_refl).
    + subst m. apply (heap_loop_body_decreases line_of_best_fit st C H1).
    + exact (Step _ _ Ist H1).
  - exists st, calls, n. split; [reflexivity|]. split; [reflexivity|exact Ist].
Qed.

(** The body of the loop writes to the object of [positions] only. *)
Lemma heap_loop_body_frame (st st' : hstate) :
  heap_loop_body line_of_best_fit st = Returns st' ->
  hs_positions st' = hs_positions st /\
  forall k : loc, k <> hs_positions st -> hs_heap st' !! k = hs_heap st !! k.
Proof.
  unfold heap_loop_body. intros H.
  destruct (scan _ _ _) as [g|]; cbn [bind] in H; [|discriminate].
  match type of H with context [gt ?a ?b] => destruct (gt a b) end;
    cbn [bind] in H.
  - destruct (remove_position _ _) as [ps'|]; cbn [bind] in H; [|discriminate].
    injection H as <-. cbn [hs_positions hs_heap]. split; [reflexivity|].
    intros k Hk. apply lookup_insert_ne. congruence.
  - injection H as <-. cbn [hs_positions hs_heap]. split; reflexivity.
Qed.

(** [remove_outliers] over the store: it returns what the value-level method
    returns on the elements of the caller's list, in a new object, and every
    object of the store it was called with is as before. *)
Lemma heap_remove_outliers_spec (e : engine) (h : gmap loc (list point))
    (r : loc) (ps : list point) :
  h !! r = Some ps ->
  exists e' r' h',
    heap_remove_outliers line_of_best_fit e h r = Returns (e', r', h') /\
    remove_outliers line_of_best_fit e ps = Returns (e', deref h' r') /\
    h !! r' = None /\
    forall k : loc, is_Some (h !! k) -> h' !! k = h !! k.
Proof.
  intros Hr. unfold heap_remove_outliers.
  set (r' := fresh (dom h)).
  assert (h !! r' = None) as Fresh
    by (apply not_elem_of_dom; apply is_fresh).
  assert (deref h r = ps) as -> by (unfold deref; rewrite Hr; reflexivity).
  set (h1 := <[r' := ps]> h).
  set (I := fun st : hstate =>
              hs_positions st = r' /\
              forall k : loc, k <> r' -> hs_heap st !! k = h1 !! k).
  destruct (@heap_while_loop_simulation I) with
    (st := {| hs_self := e; hs_heap := h1; hs_positions := r';
              hs_previous_num_positions := None |})
    (calls := @nil (list point)) (n := 0%nat)
    as [st' [calls' [n' (Hh & Hv & [Hp Hf])]]].
  - intros st st' [Ip If] Hb.
    destruct (heap_loop_body_frame st Hb) as [Fp Ff]. split.
    + congruence.
    + intros k Hk. rewrite Ff by congruence. apply If, Hk.
  - split; [reflexivity|]. intros k Hk. reflexivity.
  - rewrite Hh. cbn [bind]. eexists _, _, _. split; [reflexivity|].
    split; [|split; [rewrite Hp; exact Fresh|]].
    + unfold remove_outliers, remove_outliers_run.
      unfold view in Hv at 1.
      cbn [hs_self hs_heap hs_positions hs_previous_num_positions] in Hv.
      unfold h1 in Hv at 1. rewrite deref_insert in Hv.
      rewrite Hv. cbn [bind]. reflexivity.
    + intros k [x Hk]. rewrite Hf by congruence.
      unfold h1. apply lookup_insert_ne. congruence.
Qed.

Lemma heap_compute_steering_angle_spec (e : engine)
    (h : gmap loc (list point)) (r : loc) (ps : list point) :
  h !! r = Some ps ->
  exists res e' h',
    heap_compute_steering_angle line_of_best_fit e h r =
      Returns (res, e', h') /\
    compute_steering_angle line_of_best_fit e ps = Returns (res, e') /\
    forall k : loc, is_Some (h !! k) -> h' !! k = h !! k.
Proof.
  intros Hr. unfold heap_compute_steering_angle, compute_steering_angle.
  assert (deref h r = ps) as -> by (unfold deref; rewrite Hr; reflexivity).
  destruct (length ps <? 2)%nat eqn:L.
  - exists None, e, h. repeat split; reflexivity.
  - destruct (@heap_remove_outliers_spec e h r ps Hr) as [e1 [r1 [h1 (H1 & H2 & _ & F)]]].
    rewrite H1, H2. cbn [bind fst snd].
    destruct (lt_dec (length ps) 2) as [Lt|Ge];
      [apply Nat.ltb_lt in Lt; congruence|].
    destruct (compute_steering_angle_spec line_of_best_fit e ps) as [ps1 [R S]];
      [lia|].
    unfold compute_steering_angle in S. rewrite L, H2 in S.
    cbn [bind fst] in S. cbv zeta in S. rewrite S. cbn [bind].
    eexists _, _, _. repeat split. exact F.
Qed.

End StoreProperties.

(** * The claims *)

Section Claims.

Context {B : Type} {BC : BacklashCompensator B}.
Variable line_of_best_fit : list point -> line.

#[local] Abbreviation engine := (PDSteeringEngine B).
#[local] Abbreviation state := (loop_state B).

(** In exact arithmetic, where every value is a number: for an engine whose
    steering limit [L] is not negative and an input of at least two points,
    [compute_steering_angle] returns a tuple whose steering angle lies
    between [-L] and [L], whatever the line fit and the backlash compensator
    are.  On floats the same two tests let NaN through; see
    [nan_passes_the_limit_tests]. *)
Theorem steering_angle_within_limit (e : engine) (center_points : list point) :
  0 <= steering_limit e ->
  (2 <= length center_points)%nat ->
  exists steering_angle proportional_error line_slope e',
    compute_steering_angle line_of_best_fit e center_points =
      Returns (Some (steering_angle, proportional_error, line_slope), e') /\
    - steering_limit e <= steering_angle /\
    steering_angle <= steering_limit e.
Proof.
  intros HL Len.
  destruct (compute_steering_angle_spec line_of_best_fit e center_points Len)
    as [ps [_ H]].
  cbv zeta in H. eexists _, _, _, _. split; [exact H|].
  apply clamp_bounds, HL.
Qed.

(** C2: on an input of fewer than two points [compute_steering_angle]
    returns [None], not a tuple, and the engine after the call is the engine
    before it: stored line, errors and compensator state included. *)
Theorem insufficient_data_changes_nothing (e : engine)
    (center_points : list point) :
  (length center_points < 2)%nat ->
  compute_steering_angle line_of_best_fit e center_points = Returns (None, e).
Proof.
  intros Len. apply compute_steering_angle_short, Len.
Qed.

(** C4: every pass of the trimming loop returns.  On a working set that is
    not empty, the candidate for removal is the first point, in list order,
    among those of greatest residual against the line just fitted; the pass
    removes that one element when its residual exceeds
    [max_distance_from_line] and removes nothing otherwise. *)
Theorem trimming_pass_removes_first_greatest (st : state) :
  exists st',
    loop_body line_of_best_fit st = Returns st' /\
    center_line_of_best_fit (self st') =
      Some (line_of_best_fit (positions st)) /\
    pass_result (line_of_best_fit (positions st))
      (max_distance_from_line (self st)) (positions st) (positions st').
Proof.
  destruct (loop_body_spec line_of_best_fit st) as [ps' [H R]].
  eexists. split; [exact H|]. split; [reflexivity|exact R].
Qed.

(** C6: on an input of at least two points, with [(intercept, slope)] the
    line that [remove_outliers] stores, [compute_steering_angle] returns the
    clamped, compensated value of
    [proportional_error * proportional_multiplier + slope * derivative_multiplier],
    where [proportional_error = ideal_center_x - (slope * center_y + intercept)],
    together with [proportional_error] and [slope]; the engine then holds
    that same pair as [errors]. *)
Theorem steering_law (e : engine) (center_points : list point) :
  (2 <= length center_points)%nat ->
  exists ps intercept slope e',
    remove_outliers line_of_best_fit e center_points =
      Returns (set_center_line_of_best_fit e (Some (intercept, slope)), ps) /\
    (intercept, slope) = line_of_best_fit ps /\
    let center_x := slope * center_y e + intercept in
    let proportional_error := ideal_center_x e - center_x in
    let raw := proportional_error * proportional_multiplier e
               + slope * derivative_multiplier e in
    let compensated := process (backlash_compensator e) raw in
    compute_steering_angle line_of_best_fit e center_points =
      Returns (Some (clamp (steering_limit e) (fst compensated),
                     proportional_error, slope), e') /\
    errors e' = Some (proportional_error, slope) /\
    center_line_of_best_fit e' = Some (intercept, slope) /\
    backlash_compensator e' = snd compensated.
Proof.
  intros Len.
  destruct (compute_steering_angle_spec line_of_best_fit e center_points Len)
    as [ps [Hr H]].
  cbv zeta in H. unfold raw_steering in H.
  exists ps, (fst (line_of_best_fit ps)), (snd (line_of_best_fit ps)).
  eexists. rewrite <- surjective_pairing.
  split; [exact Hr|]. split; [reflexivity|].
  cbv zeta. split; [exact H|]. repeat split.
Qed.

(** C7: [remove_outliers] returns on every list.  The number of passes of
    its loop is one more than the number of points removed, hence at most the
    length of the input plus one; a pass removes at most one point, and the
    loop test fails after a pass that removed none. *)
Theorem trimming_terminates :
  (forall (e : engine) (ps0 : list point),
     exists st,
       remove_outliers_run line_of_best_fit e ps0 = Returns st /\
       (passes st + length (positions st) = length ps0 + 1)%nat /\
       (passes st <= length ps0 + 1)%nat) /\
  (forall st : state,
     exists st',
       loop_body line_of_best_fit st = Returns st' /\
       (length (positions st') <= length (positions st))%nat /\
       (length (positions st) <= length (positions st') + 1)%nat /\
       (length (positions st') = length (positions st) ->
        loop_cond st' = false)).
Proof.
  split.
  - intros e ps0.
    destruct (remove_outliers_run_spec line_of_best_fit e ps0)
      as [st (H & _ & P & _)].
    exists st. split; [exact H|]. lia.
  - intros st.
    destruct (loop_body_spec line_of_best_fit st) as [ps' [H R]].
    eexists. split; [exact H|].
    rewrite (loop_cond_after_body line_of_best_fit st H).
    cbn [positions]. apply pass_result_length in R.
    destruct R as [->|L].
    + rewrite Nat.eqb_refl. repeat split; lia.
    + repeat split; try lia.
Qed.

(** C9: two calls of [compute_steering_angle] on engines with the same
    tuning constants and the same compensator state, on the same points,
    return the same value and leave engines with the same tuning constants
    and compensator state; when the input has at least two points, so that a
    tuple is returned, the two engines are left equal. *)
Theorem compute_steering_angle_deterministic (e1 e2 : engine)
    (center_points : list point) :
  same_tuning e1 e2 ->
  exists res e1' e2',
    compute_steering_angle line_of_best_fit e1 center_points =
      Returns (res, e1') /\
    compute_steering_angle line_of_best_fit e2 center_points =
      Returns (res, e2') /\
    same_tuning e1' e2' /\
    ((2 <= length center_points)%nat -> e1' = e2').
Proof.
  intros T.
  destruct (le_lt_dec 2 (length center_points)) as [Len|Len].
  - destruct (remove_outliers_same line_of_best_fit center_points T)
      as [ps [R1 R2]].
    destruct (compute_steering_angle_spec line_of_best_fit e1 center_points Len)
      as [ps1 [R1' H1]].
    destruct (compute_steering_angle_spec line_of_best_fit e2 center_points Len)
      as [ps2 [R2' H2]].
    assert (ps1 = ps) as -> by congruence.
    assert (ps2 = ps) as -> by congruence.
    cbv zeta in H1, H2.
    destruct T as (T1 & T2 & T3 & T4 & T5 & T6 & T7).
    unfold raw_steering in H1, H2.
    rewrite <- T1, <- T2, <- T3, <- T4, <- T5, <- T6, <- T7 in H2.
    eexists _, _, _. split; [exact H1|]. split; [exact H2|].
    split; [|reflexivity]. repeat split.
  - rewrite !compute_steering_angle_short by exact Len.
    exists None, e1, e2. repeat split; try apply T. lia.
Qed.

(** C10: [remove_outliers] and [compute_steering_angle], called with a
    reference to the caller's list, leave that list, and every other object
    of the caller's store, as it was: the list that the loop prunes is a new
    object.  What they return is what the value-level methods return on the
    elements of the caller's list. *)
Theorem caller_list_untouched (e : engine) (h : gmap loc (list point))
    (r : loc) (ps : list point) :
  h !! r = Some ps ->
  (exists e' r' h',
     heap_remove_outliers line_of_best_fit e h r = Returns (e', r', h') /\
     h' !! r = Some ps /\
     r' <> r /\
     (forall k : loc, is_Some (h !! k) -> h' !! k = h !! k) /\
     remove_outliers line_of_best_fit e ps = Returns (e', deref h' r')) /\
  (exists res e' h',
     heap_compute_steering_angle line_of_best_fit e h r =
       Returns (res, e', h') /\
     h' !! r = Some ps /\
     (forall k : loc, is_Some (h !! k) -> h' !! k = h !! k) /\
     compute_steering_angle line_of_best_fit e ps = Returns (res, e')).
Proof.
  intros Hr. split.
  - destruct (@heap_remove_outliers_spec B line_of_best_fit e h r ps Hr)
      as [e' [r' [h' (H & V & Fresh & F)]]].
    exists e', r', h'. split; [exact H|]. split; [|split; [|split]].
    + rewrite F by (rewrite Hr; eexists; reflexivity). exact Hr.
    + intros ->. congruence.
    + exact F.
    + exact V.
  - destruct (@heap_compute_steering_angle_spec B BC line_of_best_fit e h r ps Hr)
      as [res [e' [h' (H & V & F)]]].
    exists res, e', h'. split; [exact H|]. split; [|split].
    + rewrite F by (rewrite Hr; eexists; reflexivity). exact Hr.
    + exact F.
    + exact V.
Qed.

End Claims.

(** ** Claims about concrete runs *)

(** C3, as the code runs it: with the least-squares fit and the identity
    compensator, the example of the spec keeps [(0, 0)] and [(3, 100)]: the
    first fit is [x = 30 * y - 20], which puts [(2, 0)] farthest from the line
    and not [(3, 100)].  The first pass removes [(2, 0)], the second
    [(1, 0)], the third nothing.  The line stored is [x = (100/3) * y], the
    proportional error and the raw steering value are [-200/3], and the angle
    returned is the limit, [-50]. *)
Theorem end_to_end_example :
  exists steering_angle proportional_error line_slope e',
    compute_steering_angle least_squares example_engine example_points =
      Returns (Some (steering_angle, proportional_error, line_slope), e') /\
    remove_outliers least_squares example_engine example_points =
      Returns (set_center_line_of_best_fit example_engine
                 (center_line_of_best_fit e'), [(0, 0); (3, 100)]) /\
    (exists intercept,
       center_line_of_best_fit e' = Some (intercept, line_slope) /\
       intercept == 0 /\
       line_slope == 100 # 3 /\
       line_slope * center_y example_engine + intercept == 200 # 3 /\
       raw_steering example_engine (intercept, line_slope) == - (200 # 3)) /\
    proportional_error == - (200 # 3) /\
    steering_angle == - 50 /\
    (fst (least_squares example_points) == - 20 /\
     snd (least_squares example_points) == 30) /\
    (exists st1 st2 st3,
       loop_body least_squares
         {| self := example_engine; positions := example_points;
            previous_num_positions := None; fit_calls := []; passes := 0 |}
         = Returns st1 /\
       positions st1 = [(0, 0); (1, 0); (3, 100)] /\
       loop_body least_squares st1 = Returns st2 /\
       positions st2 = [(0, 0); (3, 100)] /\
       loop_body least_squares st2 = Returns st3 /\
       positions st3 = [(0, 0); (3, 100)] /\
       loop_cond st3 = false) /\
    (exists st,
       remove_outliers_run least_squares example_engine example_points
         = Returns st /\
       passes st = 3%nat /\
       fit_calls st = [[(0, 0); (3, 100)];
                       [(0, 0); (3, 100)];
                       [(0, 0); (1, 0); (3, 100)];
                       [(0, 0); (1, 0); (2, 0); (3, 100)]]).
Proof.
  eexists _, _, _, _. split; [vm_compute; reflexivity|].
  split; [vm_compute; reflexivity|].
  split; [exists 0; repeat split|].
  split; [reflexivity|]. split; [reflexivity|].
  split; [split; reflexivity|].
  split.
  - eexists _, _, _.
    split; [vm_compute; reflexivity|]. split; [reflexivity|].
    split; [vm_compute; reflexivity|]. split; [reflexivity|].
    split; [vm_compute; reflexivity|]. split; reflexivity.
  - eexists. split; [vm_compute; reflexivity|]. split; reflexivity.
Qed.

(** C3, as the spec words it, does not hold: the angle returned on the
    example is not [0] (nor is the slope stored, or the proportional
    error). *)
Lemma end_to_end_example_is_not_zero :
  ~ exists steering_angle proportional_error line_slope e' intercept,
      compute_steering_angle least_squares example_engine example_points =
        Returns (Some (steering_angle, proportional_error, line_slope), e') /\
      center_line_of_best_fit e' = Some (intercept, line_slope) /\
      intercept == 0 /\
      line_slope == 0 /\
      line_slope * center_y example_engine + intercept == 0 /\
      proportional_error == 0 /\
      steering_angle == 0.
Proof.
  intros (a & pe & s & e' & i & H & _ & _ & _ & _ & _ & Ha).
  assert (compute_steering_angle least_squares example_engine example_points =
          Returns (Some (- 50, - 200 # 3, 100 # 3),
                   set_errors
                     (set_center_line_of_best_fit example_engine
                        (Some (0, 100 # 3)))
                     (Some (- 200 # 3, 100 # 3)))) as E
    by (vm_compute; reflexivity).
  rewrite E in H. injection H as <- _ _ _. discriminate Ha.
Qed.

(** For every limit, the two tests of [compute_steering_angle] return a NaN
    steering value as it is: neither [NaN > limit] nor [NaN < -limit]
    holds. *)
Lemma clamp_nan (steering_limit : float) :
  Float64.clamp steering_limit nan = nan.
Proof.
  unfold Float64.clamp. rewrite !FloatAxioms.ltb_spec.
  change (FloatOps.Prim2SF nan) with SpecFloat.S754_nan.
  unfold SpecFloat.SFltb, SpecFloat.SFcompare.
  destruct (FloatOps.Prim2SF steering_limit); try reflexivity;
    destruct (FloatOps.Prim2SF (- steering_limit)); reflexivity.
Qed.

(** C1, on the code: the limit does not bound a NaN.  The engine below has
    the steering limit [50] and finite gains, and is called on two finite
    points, with the least-squares fit and the identity compensator.  The
    fit is [x = 10 * y], no point is removed, and the proportional error is
    [-20]; its product with the gain overflows to minus infinity, that of
    the slope to plus infinity, and their sum is NaN.  Neither test of the
    limit holds of NaN, so NaN is the steering angle returned, and it is not
    within [-50] and [50]. *)
Theorem nan_passes_the_limit_tests :
  let e := Float64.high_gain_engine in
  let L := Float64.steering_limit e in
  (2 <= length Float64.steep_points)%nat /\
  (0 <=? L)%float = true /\
  forallb is_finite
    [Float64.proportional_multiplier e; Float64.derivative_multiplier e;
     Float64.max_distance_from_line e; Float64.ideal_center_x e;
     Float64.center_y e; L] = true /\
  forallb (fun p => is_finite (fst p) && is_finite (snd p))
    Float64.steep_points = true /\
  exists steering_angle proportional_error line_slope e',
    @Float64.compute_steering_angle unit Float64.identity_compensator
      Float64.least_squares e Float64.steep_points =
      Returns (Some (steering_angle, proportional_error, line_slope), e') /\
    (exists e1,
       Float64.remove_outliers Float64.least_squares e Float64.steep_points =
         Returns (e1, Float64.steep_points)) /\
    Float64.center_line_of_best_fit e' = Some (0, 10)%float /\
    proportional_error = (- 20)%float /\
    (proportional_error * Float64.proportional_multiplier e
     = neg_infinity)%float /\
    (line_slope * Float64.derivative_multiplier e = infinity)%float /\
    is_nan steering_angle = true /\
    (- L <=? steering_angle)%float = false /\
    (steering_angle <=? L)%float = false.
Proof.
  cbv zeta. split; [simpl; lia|]. split; [reflexivity|].
  split; [reflexivity|]. split; [reflexivity|].
  eexists _, _, _, _. split; [vm_compute; reflexivity|].
  split; [eexists; vm_compute; reflexivity|].
  repeat split.
Qed.

(** C5, on the code: nothing stops the loop at two points.  Take the
    threshold [5] and the two points [(0, 0)] and [(0, 100)], which share
    their vertical coordinate.  Whatever line the fit returns, one of the two
    lies more than [5] away from it and is removed, and [line_of_best_fit] is
    then called on a list of fewer than two points; [remove_outliers] returns
    as usual. *)
Theorem trimming_fits_fewer_than_two_points (B : Type)
    (BC : BacklashCompensator B) (line_of_best_fit : list point -> line)
    (proportional_multiplier derivative_multiplier ideal_center_x center_y
       steering_limit : Q) :
  let e := __init__ proportional_multiplier derivative_multiplier 5
             ideal_center_x center_y steering_limit in
  exists st,
    remove_outliers_run line_of_best_fit e [(0, 0); (0, 100)] = Returns st /\
    exists working_set,
      In working_set (fit_calls st) /\ (length working_set < 2)%nat.
Proof.
  intros e. unfold remove_outliers_run.
  rewrite while_loop_step. cbn [loop_cond previous_num_positions].
  match goal with |- context [loop_body _ ?st0] =>
    destruct (loop_body_spec line_of_best_fit st0) as [ps' [Hb R]] end.
  rewrite Hb. cbn [bind].
  cbn [self positions max_distance_from_line e __init__] in R.
  set (l := line_of_best_fit [(0, 0); (0, 100)]) in *.
  assert (length ps' <= 1)%nat as Short.
  { destruct R as [i [p [(N & G & _) [Rm _]]]].
    assert (5 < residual l p) as Far.
    { apply Qnot_le_lt. intros Near.
      pose proof (G 0%nat (0, 0) eq_refl) as G0.
      pose proof (G 1%nat (0, 100) eq_refl) as G1.
      unfold residual at 1 in G0. unfold residual at 1 in G1.
      cbn [fst snd] in G0, G1.
      pose proof (Qle_Qabs (snd l * 0 + fst l - 0)) as A0.
      pose proof (Qle_Qabs (- (snd l * 0 + fst l - 100))) as A1.
      rewrite Qabs_opp in A1. lra. }
    rewrite (Rm Far).
    destruct i as [|[|i]]; cbn [firstn skipn app length]; try lia.
    cbn [nth_error] in N. destruct i; discriminate N. }
  match goal with |- context [while_loop _ ?st1] =>
    destruct (@while_loop_invariant B line_of_best_fit
                (fun st => (length (positions st) <= 1)%nat)) with (st := st1)
      as [st' (Hl & I' & _)] end.
  - intros st st' I _ H.
    pose proof (loop_body_length line_of_best_fit st H). lia.
  - exact Short.
  - rewrite Hl. cbn [bind]. eexists. split; [reflexivity|].
    exists (positions st'). cbn [store_line_of_best_fit fit_calls].
    split; [left; reflexivity|lia].
Qed.

(** The same with the least-squares fit on two points of distinct vertical
    coordinates, when the threshold is negative: the fit is exact, the
    residuals are zero, and zero exceeds the threshold. *)
Example trimming_with_negative_threshold :
  let e : PDSteeringEngine unit := __init__ 1 0 (- 1) 0 2 50 in
  exists st,
    remove_outliers_run least_squares e [(0, 0); (1, 0)] = Returns st /\
    positions st = [] /\
    fit_calls st = [[]; []; [(1, 0)]; [(0, 0); (1, 0)]].
Proof.
  eexists. split; [vm_compute; reflexivity|]. split; reflexivity.
Qed.

(** C8, on the code: the constructor checks nothing.  Every call returns an
    engine that stores the six parameters as given, with a fresh compensator
    and no line or errors yet. *)
Theorem constructor_stores_parameters_as_given (B : Type)
    (BC : BacklashCompensator B)
    (P D M X Y L : Q) :
  exists e : PDSteeringEngine B,
    new_engine P D M X Y L = Returns e /\
    proportional_multiplier e = P /\
    derivative_multiplier e = D /\
    max_distance_from_line e = M /\
    ideal_center_x e = X /\
    center_y e = Y /\
    steering_limit e = L /\
    backlash_compensator e = new_compensator /\
    center_line_of_best_fit e = None /\
    errors e = None.
Proof.
  eexists. split; [reflexivity|]. repeat split.
Qed.

(** C8 as the spec words it does not hold: a call with four negative
    parameters is not rejected, and the engine it returns holds them. *)
Lemma constructor_accepts_negative_parameters :
  exists e : PDSteeringEngine unit,
    new_engine (- 1) (- 2) (- 3) 0 0 (- 4) = Returns e /\
    proportional_multiplier e < 0 /\
    derivative_multiplier e < 0 /\
    max_distance_from_line e < 0 /\
    steering_limit e < 0.
Proof.
  eexists. split; [reflexivity|]. repeat split.
Qed.

(** ** The theorems with hypotheses, at concrete inputs *)

Lemma steering_angle_within_limit_witness :
  0 <= steering_limit example_engine /\
  (2 <= length example_points)%nat /\
  exists steering_angle proportional_error line_slope e',
    compute_steering_angle least_squares example_engine example_points =
      Returns (Some (steering_angle, proportional_error, line_slope), e') /\
    - steering_limit example_engine <= steering_angle /\
    steering_angle <= steering_limit example_engine.
Proof.
  assert (0 <= steering_limit example_engine) as H1
    by (vm_compute; discriminate).
  assert (2 <= length example_points)%nat as H2 by (simpl; lia).
  split; [exact H1|]. split; [exact H2|].
  exact (@steering_angle_within_limit unit _ least_squares example_engine
           example_points H1 H2).
Defined.

Lemma insufficient_data_changes_nothing_witness :
  (length single_point < 2)%nat /\
  compute_steering_angle least_squares used_engine single_point =
    Returns (None, used_engine).
Proof.
  assert (length single_point < 2)%nat as H by (simpl; lia).
  split; [exact H|].
  exact (@insufficient_data_changes_nothing unit _ least_squares
           used_engine single_point H).
Defined.

Lemma steering_law_witness :
  (2 <= length example_points)%nat /\
  exists ps intercept slope e',
    remove_outliers least_squares example_engine example_points =
      Returns (set_center_line_of_best_fit example_engine
                 (Some (intercept, slope)), ps) /\
    (intercept, slope) = least_squares ps /\
    let center_x := slope * center_y example_engine + intercept in
    let proportional_error := ideal_center_x example_engine - center_x in
    let raw := proportional_error * proportional_multiplier example_engine
               + slope * derivative_multiplier example_engine in
    let compensated := process (backlash_compensator example_engine) raw in
    compute_steering_angle least_squares example_engine example_points =
      Returns (Some (clamp (steering_limit example_engine) (fst compensated),
                     proportional_error, slope), e') /\
    errors e' = Some (proportional_error, slope) /\
    center_line_of_best_fit e' = Some (intercept, slope) /\
    backlash_compensator e' = snd compensated.
Proof.
  assert (2 <= length example_points)%nat as H by (simpl; lia).
  split; [exact H|].
  exact (@steering_law unit _ least_squares example_engine example_points H).
Defined.

Lemma compute_steering_angle_deterministic_witness :
  same_tuning example_engine used_engine /\
  exists res e1' e2',
    compute_steering_angle least_squares example_engine example_points =
      Returns (res, e1') /\
    compute_steering_angle least_squares used_engine example_points =
      Returns (res, e2') /\
    same_tuning e1' e2' /\
    ((2 <= length example_points)%nat -> e1' = e2').
Proof.
  assert (same_tuning example_engine used_engine) as H by (repeat split).
  split; [exact H|].
  exact (@compute_steering_angle_deterministic unit _ least_squares
           example_engine used_engine example_points H).
Defined.

Lemma caller_list_untouched_witness :
  example_store !! 1%positive = Some example_points /\
  (exists e' r' h',
     heap_remove_outliers least_squares example_engine example_store 1%positive
       = Returns (e', r', h') /\
     h' !! 1%positive = Some example_points /\
     r' <> 1%positive /\
     (forall k : loc, is_Some (example_store !! k) ->
                      h' !! k = example_store !! k) /\
     remove_outliers least_squares example_engine example_points =
       Returns (e', deref h' r')) /\
  (exists res e' h',
     heap_compute_steering_angle least_squares example_engine example_store
       1%positive = Returns (res, e', h') /\
     h' !! 1%positive = Some example_points /\
     (forall k : loc, is_Some (example_store !! k) ->
                      h' !! k = example_store !! k) /\
     compute_steering_angle least_squares example_engine example_points =
       Returns (res, e')).
Proof.
  assert (example_store !! 1%positive = Some example_points) as H
    by reflexivity.
  split; [exact H|].
  exact (@caller_list_untouched unit _ least_squares example_engine
           example_store 1%positive example_points H).
Defined.

(** * Further properties of the two methods *)

(** ** What a pass leaves *)

Lemma remove_at_sublist (i : nat) (ps : list point) :
  sublist (firstn i ps ++ skipn (S i) ps) ps.
Proof.
  rewrite <- (take_drop i ps) at 3.
  apply sublist_app; [reflexivity|].
  replace (S i) with (i + 1)%nat by lia.
  rewrite <- drop_drop. apply sublist_drop.
Qed.

Lemma pass_result_sublist (l : line) (m : Q) (ps ps' : list point) :
  pass_result l m ps ps' -> sublist ps' ps.
Proof.
  unfold pass_result. destruct ps as [|p0 ps].
  - intros ->. reflexivity.
  - intros [i [p [_ [Rm Keep]]]].
    destruct (Qlt_le_dec m (residual l p)) as [Lt|Le].
    + rewrite (Rm Lt). apply remove_at_sublist.
    + rewrite (Keep Le). reflexivity.
Qed.

(** A pass that leaves the length as it was removed nothing, and found every
    point within the threshold. *)
Lemma pass_result_same_length (l : line) (m : Q) (ps ps' : list point) :
  pass_result l m ps ps' ->
  length ps' = length ps ->
  ps' = ps /\ Forall (fun q => residual l q <= m) ps.
Proof.
  unfold pass_result. destruct ps as [|p0 ps].
  - intros -> _. split; [reflexivity|constructor].
  - intros [i [p [(N & G & _) [Rm Keep]]]] Len.
    destruct (Qlt_le_dec m (residual l p)) as [Lt|Le].
    + exfalso. rewrite (Rm Lt) in Len.
      assert (i < length (p0 :: ps))%nat as Li
        by (apply nth_error_Some; rewrite N; discriminate).
      rewrite length_app, length_firstn, length_skipn in Len. lia.
    + split; [exact (Keep Le)|].
      apply List.Forall_forall. intros q Hq.
      destruct (In_nth_error _ _ Hq) as [j Hj].
      apply Qle_trans with (residual l p); [exact (G j q Hj)|exact Le].
Qed.

(** A pass over points that are all within the threshold removes nothing. *)
Lemma pass_result_all_within (l : line) (m : Q) (ps ps' : list point) :
  pass_result l m ps ps' ->
  Forall (fun q => residual l q <= m) ps ->
  ps' = ps.
Proof.
  unfold pass_result. destruct ps as [|p0 ps].
  - intros -> _. reflexivity.
  - intros [i [p [(N & _ & _) [_ Keep]]]] All.
    apply Keep. apply (proj1 (List.Forall_forall _ _) All).
    apply (nth_error_In _ _ N).
Qed.

Section Convergence.

Context {B : Type} {BC : BacklashCompensator B}.
Variable line_of_best_fit : list point -> line.

#[local] Abbreviation engine := (PDSteeringEngine B).
#[local] Abbreviation state := (loop_state B).

Lemma trim_invariant_body (m : Q) (ps0 : list point) (st st' : state) :
  trim_invariant line_of_best_fit m ps0 st ->
  loop_cond st = true ->
  loop_body line_of_best_fit st = Returns st' ->
  trim_invariant line_of_best_fit m ps0 st'.
Proof.
  intros (M & Sub & F & _) C Hb. unfold trim_invariant.
  rewrite (loop_cond_after_body line_of_best_fit st Hb).
  destruct (loop_body_spec line_of_best_fit st) as [ps' [Hb' R]].
  rewrite Hb' in Hb. injection Hb as <-.
  cbn [self positions passes fit_calls max_distance_from_line
       set_center_line_of_best_fit].
  split; [exact M|]. split.
  - etransitivity; [exact (@pass_result_sublist _ _ _ _ R)|exact Sub].
  - split; [cbn [length]; rewrite F; reflexivity|].
    intros E. apply negb_false_iff, Nat.eqb_eq in E.
    destruct (@pass_result_same_length _ _ _ _ R E) as [-> All].
    rewrite M in All. split; [exact All|]. eexists. reflexivity.
Qed.

(** Everything the loop establishes, about one and the same final state. *)
Lemma remove_outliers_run_full (e : engine) (ps0 : list point) :
  exists st,
    remove_outliers_run line_of_best_fit e ps0 = Returns st /\
    self st = set_center_line_of_best_fit e
                (Some (line_of_best_fit (positions st))) /\
    (passes st + length (positions st) = S (length ps0))%nat /\
    sublist (positions st) ps0 /\
    Forall (fun p => residual (line_of_best_fit (positions st)) p
                     <= max_distance_from_line e) (positions st) /\
    length (fit_calls st) = S (passes st) /\
    exists rest, fit_calls st = positions st :: positions st :: rest.
Proof.
  unfold remove_outliers_run.
  set (m := max_distance_from_line e).
  set (I := fun st : state =>
              run_invariant e (length ps0) st /\
              trim_invariant line_of_best_fit m ps0 st).
  destruct (@while_loop_invariant B line_of_best_fit I) with
    (st := {| self := e; positions := ps0; previous_num_positions := None;
              fit_calls := []; passes := 0 |})
    as [st (Hl & [[[l Hs] [Hp Hn]] (M & Sub & F & Conv)] & C)].
  - intros st st' [R T] C Hb. split.
    + exact (@run_invariant_body B line_of_best_fit e _ st st' R C Hb).
    + exact (@trim_invariant_body m ps0 st st' T C Hb).
  - split.
    + split.
      * exists (center_line_of_best_fit e). cbn [self].
        symmetry. apply set_center_line_of_best_fit_same.
      * split; [reflexivity|]. cbn [positions]. lia.
    + split; [reflexivity|]. split; [reflexivity|]. split; [reflexivity|].
      intros E. discriminate E.
  - destruct (Conv C) as [All [rest Hc]].
    rewrite Hl. cbn [bind]. eexists. split; [reflexivity|].
    cbn [store_line_of_best_fit self positions passes fit_calls].
    rewrite C in Hp. split; [rewrite Hs; reflexivity|].
    split; [exact Hp|]. split; [exact Sub|]. split; [exact All|].
    split; [cbn [length]; rewrite F; reflexivity|].
    exists rest. f_equal. exact Hc.
Qed.

(** On points that are all within the threshold of the line fitted to them,
    the loop makes one pass and removes nothing. *)
Lemma remove_outliers_run_one_pass (e : engine) (ps0 : list point) :
  Forall (fun p => residual (line_of_best_fit ps0) p
                   <= max_distance_from_line e) ps0 ->
  remove_outliers_run line_of_best_fit e ps0 =
    Returns {| self := set_center_line_of_best_fit e
                         (Some (line_of_best_fit ps0));
               positions := ps0;
               previous_num_positions := Some (length ps0);
               fit_calls := [ps0; ps0];
               passes := 1 |}.
Proof.
  intros All. unfold remove_outliers_run.
  rewrite while_loop_step. cbn [loop_cond previous_num_positions].
  match goal with |- context [loop_body _ ?st0] =>
    destruct (loop_body_spec line_of_best_fit st0) as [ps' [Hb R]] end.
  cbn [self positions fit_calls passes] in Hb, R.
  rewrite (@pass_result_all_within _ _ _ _ R All) in Hb.
  rewrite Hb. cbn [bind].
  rewrite while_loop_step.
  cbn [loop_cond previous_num_positions positions].
  rewrite Nat.eqb_refl. cbn [negb bind]. reflexivity.
Qed.

End Convergence.

(** ** remove_outliers as its callers see it *)

Section RemoveOutliers.

Context {B : Type} {BC : BacklashCompensator B}.
Variable line_of_best_fit : list point -> line.

#[local] Abbreviation engine := (PDSteeringEngine B).
#[local] Abbreviation state := (loop_state B).

Lemma remove_outliers_of_run (e : engine) (ps0 : list point) (st : state) :
  remove_outliers_run line_of_best_fit e ps0 = Returns st ->
  remove_outliers line_of_best_fit e ps0 = Returns (self st, positions st).
Proof. intros H. unfold remove_outliers. rewrite H. reflexivity. Qed.

(** X1: the list returned holds elements of the argument only, each at most as
    often as the argument does, and in the order of the argument. *)
Theorem remove_outliers_returns_sublist (e : engine) (ps0 : list point) :
  exists e' ps,
    remove_outliers line_of_best_fit e ps0 = Returns (e', ps) /\
    sublist ps ps0.
Proof.
  destruct (remove_outliers_run_full line_of_best_fit e ps0)
    as [st (H & _ & _ & Sub & _)].
  exists (self st), (positions st).
  split; [exact (@remove_outliers_of_run _ _ _ H)|exact Sub].
Qed.

(** X2: on return the stored line is the fit of the list returned, and no point
    of that list is farther from it than [max_distance_from_line]. *)
Theorem remove_outliers_converges (e : engine) (ps0 : list point) :
  exists e' ps,
    remove_outliers line_of_best_fit e ps0 = Returns (e', ps) /\
    center_line_of_best_fit e' = Some (line_of_best_fit ps) /\
    Forall (fun p => residual (line_of_best_fit ps) p
                     <= max_distance_from_line e) ps.
Proof.
  destruct (remove_outliers_run_full line_of_best_fit e ps0)
    as [st (H & Hs & _ & _ & All & _)].
  exists (self st), (positions st).
  split; [exact (@remove_outliers_of_run _ _ _ H)|].
  split; [rewrite Hs; reflexivity|exact All].
Qed.

(** X3: calling [remove_outliers] again, on the list it returned and the engine
    it left, returns that list and leaves that engine. *)
Theorem remove_outliers_idempotent (e : engine) (ps0 : list point) :
  exists e' ps,
    remove_outliers line_of_best_fit e ps0 = Returns (e', ps) /\
    remove_outliers line_of_best_fit e' ps = Returns (e', ps).
Proof.
  destruct (remove_outliers_run_full line_of_best_fit e ps0)
    as [st (H & Hs & _ & _ & All & _)].
  exists (self st), (positions st).
  split; [exact (@remove_outliers_of_run _ _ _ H)|].
  assert (max_distance_from_line (self st) = max_distance_from_line e) as M
    by (rewrite Hs; reflexivity).
  rewrite <- M in All.
  rewrite (@remove_outliers_of_run _ _ _
             (@remove_outliers_run_one_pass B line_of_best_fit (self st) _ All)).
  cbn [self positions]. rewrite Hs at 1.
  rewrite set_center_line_of_best_fit_idem, <- Hs. reflexivity.
Qed.

(** X4: the argument comes back whole exactly when each of its points is within
    [max_distance_from_line] of the line fitted to it. *)
Theorem remove_outliers_keeps_all_iff (e : engine) (ps0 : list point) :
  Forall (fun p => residual (line_of_best_fit ps0) p
                   <= max_distance_from_line e) ps0 <->
  exists e', remove_outliers line_of_best_fit e ps0 = Returns (e', ps0).
Proof.
  split.
  - intros All. eexists.
    rewrite (@remove_outliers_of_run _ _ _
               (@remove_outliers_run_one_pass B line_of_best_fit e _ All)).
    reflexivity.
  - intros [e' H].
    destruct (remove_outliers_run_full line_of_best_fit e ps0)
      as [st (Hr & _ & _ & _ & All & _)].
    rewrite (@remove_outliers_of_run _ _ _ Hr) in H.
    assert (positions st = ps0) as P.
    { set (returned := fun r : outcome (engine * list point) =>
                         match r with Returns (_, ps) => ps | Raises _ => [] end).
      apply (f_equal returned) in H. exact H. }
    rewrite P in All. exact All.
Qed.

(** X5: [remove_outliers] writes one attribute of the engine, the stored line:
    the six constants, the errors and the compensator are as before. *)
Theorem remove_outliers_changes_only_the_line (e : engine) (ps0 : list point) :
  exists e' ps,
    remove_outliers line_of_best_fit e ps0 = Returns (e', ps) /\
    proportional_multiplier e' = proportional_multiplier e /\
    derivative_multiplier e' = derivative_multiplier e /\
    max_distance_from_line e' = max_distance_from_line e /\
    ideal_center_x e' = ideal_center_x e /\
    center_y e' = center_y e /\
    steering_limit e' = steering_limit e /\
    backlash_compensator e' = backlash_compensator e /\
    errors e' = errors e.
Proof.
  destruct (remove_outliers_spec line_of_best_fit e ps0) as [ps [H _]].
  eexists _, ps. split; [exact H|]. repeat split.
Qed.

(** X6: [line_of_best_fit] is called once in each pass and once after the loop:
    two times more than there are points removed.  The last call is on the
    list of the call before it, so the line stored on return is the line of
    the last pass. *)
Theorem line_fit_calls (e : engine) (ps0 : list point) :
  exists st,
    remove_outliers_run line_of_best_fit e ps0 = Returns st /\
    (length (fit_calls st) = passes st + 1)%nat /\
    (length (fit_calls st) + length (positions st) = length ps0 + 2)%nat /\
    exists rest, fit_calls st = positions st :: positions st :: rest.
Proof.
  destruct (remove_outliers_run_full line_of_best_fit e ps0)
    as [st (H & _ & P & _ & _ & F & Last)].
  exists st. split; [exact H|]. split; [lia|]. split; [lia|exact Last].
Qed.

End RemoveOutliers.

(** ** compute_steering_angle as its callers see it *)

Lemma clamp_cases (L v : Q) :
  (L < v -> clamp L v = L) /\
  (v <= L -> v < - L -> clamp L v = - L) /\
  (v <= L -> - L <= v -> clamp L v = v).
Proof.
  unfold clamp. repeat split.
  - intros Hi. apply Qgtb_true in Hi. rewrite Hi. reflexivity.
  - intros Le Lo. apply Qgtb_false in Le. apply Qgtb_true in Lo.
    rewrite Le, Lo. reflexivity.
  - intros Le Ge. apply Qgtb_false in Le. apply Qgtb_false in Ge.
    rewrite Le, Ge. reflexivity.
Qed.

Section ComputeSteeringAngle.

Context {B : Type} {BC : BacklashCompensator B}.
Variable line_of_best_fit : list point -> line.

#[local] Abbreviation engine := (PDSteeringEngine B).
#[local] Abbreviation compute := (compute_steering_angle line_of_best_fit).

(** On at least two points, two engines of the same tuning and compensator
    state return the same value and are left equal. *)
Lemma compute_steering_angle_same (e1 e2 : engine) (center_points : list point) :
  same_tuning e1 e2 ->
  (2 <= length center_points)%nat ->
  compute e1 center_points = compute e2 center_points.
Proof.
  intros T Len.
  destruct (remove_outliers_same line_of_best_fit center_points T)
    as [ps [R1 R2]].
  destruct (compute_steering_angle_spec line_of_best_fit e1 center_points Len)
    as [ps1 [R1' H1]].
  destruct (compute_steering_angle_spec line_of_best_fit e2 center_points Len)
    as [ps2 [R2' H2]].
  assert (ps1 = ps) as -> by congruence.
  assert (ps2 = ps) as -> by congruence.
  cbv zeta in H1, H2.
  destruct T as (T1 & T2 & T3 & T4 & T5 & T6 & T7).
  unfold raw_steering in H1, H2.
  rewrite <- T1, <- T2, <- T3, <- T4, <- T5, <- T6, <- T7 in H2.
  rewrite H1, H2. reflexivity.
Qed.

(** Every call returns, and the engine it leaves has the tuning of the
    engine it was called on; with the compensator state it has then, it has
    the tuning and state of that engine given this state. *)
Lemma compute_steering_angle_tuning (e : engine) (center_points : list point) :
  exists res e',
    compute e center_points = Returns (res, e') /\
    same_tuning e' (set_backlash_compensator e (backlash_compensator e')).
Proof.
  destruct (le_lt_dec 2 (length center_points)) as [Len|Len].
  - destruct (compute_steering_angle_spec line_of_best_fit e center_points Len)
      as [ps [_ H]].
    cbv zeta in H. eexists _, _. split; [exact H|]. repeat split.
  - exists None, e. split; [|repeat split].
    apply compute_steering_angle_short, Len.
Qed.

(** X9: no call changes the six tuning constants of the engine. *)
Theorem compute_steering_angle_keeps_tuning (e : engine)
    (center_points : list point) :
  exists res e',
    compute e center_points = Returns (res, e') /\
    proportional_multiplier e' = proportional_multiplier e /\
    derivative_multiplier e' = derivative_multiplier e /\
    max_distance_from_line e' = max_distance_from_line e /\
    ideal_center_x e' = ideal_center_x e /\
    center_y e' = center_y e /\
    steering_limit e' = steering_limit e.
Proof.
  destruct (compute_steering_angle_tuning e center_points)
    as [res [e' (H & T1 & T2 & T3 & T4 & T5 & T6 & _)]].
  exists res, e'. split; [exact H|]. repeat split; assumption.
Qed.

(** X10: on at least two points, with [v] the value that the compensator returns
    for the raw steering value of the fitted line: the angle returned is the
    limit when [v] is above the limit; otherwise the opposite of the limit
    when [v] is below that; otherwise [v] itself. *)
Theorem steering_angle_saturates (e : engine) (center_points : list point) :
  (2 <= length center_points)%nat ->
  exists e1 ps steering_angle proportional_error line_slope e',
    remove_outliers line_of_best_fit e center_points = Returns (e1, ps) /\
    compute e center_points =
      Returns (Some (steering_angle, proportional_error, line_slope), e') /\
    let v := fst (process (backlash_compensator e)
                    (raw_steering e (line_of_best_fit ps))) in
    (steering_limit e < v -> steering_angle = steering_limit e) /\
    (v <= steering_limit e -> v < - steering_limit e ->
     steering_angle = - steering_limit e) /\
    (v <= steering_limit e -> - steering_limit e <= v -> steering_angle = v).
Proof.
  intros Len.
  destruct (compute_steering_angle_spec line_of_best_fit e center_points Len)
    as [ps [Hr H]].
  cbv zeta in H. eexists _, ps, _, _, _, _.
  split; [exact Hr|]. split; [exact H|]. apply clamp_cases.
Qed.

(** X12: a call affects the next one through the compensator only: after any
    call, a call on at least two points returns what it would return, and
    leaves the engine it would leave, had the engine kept its earlier line
    and errors and taken the new compensator state. *)
Theorem next_call_sees_the_compensator_only (e : engine)
    (first_points next_points : list point) :
  (2 <= length next_points)%nat ->
  exists res1 e1,
    compute e first_points = Returns (res1, e1) /\
    compute e1 next_points =
    compute (set_backlash_compensator e (backlash_compensator e1)) next_points.
Proof.
  intros Len.
  destruct (compute_steering_angle_tuning e first_points)
    as [res1 [e1 (H & T)]].
  exists res1, e1. split; [exact H|].
  apply compute_steering_angle_same; [exact T|exact Len].
Qed.

End ComputeSteeringAngle.

(** ** The object that remove_outliers returns *)

Section ReturnedObject.

Context {B : Type}.
Variable line_of_best_fit : list point -> line.

#[local] Abbreviation engine := (PDSteeringEngine B).
#[local] Abbreviation hstate := (heap_state B).

(** X13: the reference returned denotes an object that did not exist before the
    call, so no reference held before the call aliases the list returned;
    that object holds the pruned list. *)
Theorem returned_list_is_a_new_object (e : engine)
    (h : gmap loc (list point)) (r : loc) (ps : list point) :
  h !! r = Some ps ->
  exists e' r' h' pruned,
    heap_remove_outliers line_of_best_fit e h r = Returns (e', r', h') /\
    h !! r' = None /\
    h' !! r' = Some pruned /\
    remove_outliers line_of_best_fit e ps = Returns (e', pruned).
Proof.
  intros Hr.
  destruct (@heap_remove_outliers_spec B line_of_best_fit e h r ps Hr)
    as [e' [r' [h' (H & V & Fresh & _)]]].
  exists e', r', h', (deref h' r').
  split; [exact H|]. split; [exact Fresh|]. split; [|exact V].
  unfold heap_remove_outliers in H.
  set (r0 := fresh (dom h)) in *.
  set (I := fun st : hstate =>
              hs_positions st = r0 /\ is_Some (hs_heap st !! r0)).
  destruct (@heap_while_loop_simulation B line_of_best_fit I) with
    (st := {| hs_self := e; hs_heap := <[r0 := deref h r]> h;
              hs_positions := r0; hs_previous_num_positions := None |})
    (calls := @nil (list point)) (n := 0%nat)
    as [st' [calls' [n' (Hh & _ & [Hp [x Hx]])]]].
  - intros st st' [Ip Is] Hb. unfold heap_loop_body in Hb.
    destruct (scan _ _ _) as [g|]; cbn [bind] in Hb; [|discriminate].
    match type of Hb with context [gt ?a ?b] => destruct (gt a b) end;
      cbn [bind] in Hb.
    + destruct (remove_position _ _) as [ps'|]; cbn [bind] in Hb;
        [|discriminate].
      injection Hb as <-. unfold I. cbn [hs_positions hs_heap].
      split; [exact Ip|].
      rewrite Ip, lookup_insert_eq. eexists. reflexivity.
    + injection Hb as <-. unfold I. cbn [hs_positions hs_heap].
      split; assumption.
  - unfold I. split; [reflexivity|]. cbn [hs_heap].
    rewrite lookup_insert_eq. eexists. reflexivity.
  - rewrite Hh in H. cbn [bind] in H.
    set (store_of := fun o : outcome (engine * loc * gmap loc (list point)) =>
                       match o with
                       | Returns (_, r1, h1) => Some (r1, h1)
                       | Raises _ => None
                       end).
    apply (f_equal store_of) in H. cbn in H. injection H as <- <-.
    unfold deref. rewrite Hp, Hx. reflexivity.
Qed.

End ReturnedObject.

(** ** The further theorems with hypotheses, at concrete inputs *)

Lemma steering_angle_saturates_witness :
  (2 <= length example_points)%nat /\
  exists e1 ps steering_angle proportional_error line_slope e',
    remove_outliers least_squares example_engine example_points
      = Returns (e1, ps) /\
    compute_steering_angle least_squares example_engine example_points =
      Returns (Some (steering_angle, proportional_error, line_slope), e') /\
    let v := fst (process (backlash_compensator example_engine)
                    (raw_steering example_engine (least_squares ps))) in
    (steering_limit example_engine < v ->
     steering_angle = steering_limit example_engine) /\
    (v <= steering_limit example_engine ->
     v < - steering_limit example_engine ->
     steering_angle = - steering_limit example_engine) /\
    (v <= steering_limit example_engine ->
     - steering_limit example_engine <= v -> steering_angle = v).
Proof.
  assert (2 <= length example_points)%nat as H by (simpl; lia).
  split; [exact H|].
  exact (@steering_angle_saturates unit _ least_squares example_engine
           example_points H).
Defined.

Lemma next_call_sees_the_compensator_only_witness :
  (2 <= length example_points)%nat /\
  exists res1 e1,
    compute_steering_angle least_squares lagging_engine example_points
      = Returns (res1, e1) /\
    compute_steering_angle least_squares e1 example_points =
    compute_steering_angle least_squares
      (set_backlash_compensator lagging_engine (backlash_compensator e1))
      example_points.
Proof.
  assert (2 <= length example_points)%nat as H by (simpl; lia).
  split; [exact H|].
  exact (@next_call_sees_the_compensator_only Q _ least_squares lagging_engine
           example_points example_points H).
Defined.

Lemma returned_list_is_a_new_object_witness :
  example_store !! 1%positive = Some example_points /\
  exists e' r' h' pruned,
    heap_remove_outliers least_squares example_engine example_store 1%positive
      = Returns (e', r', h') /\
    example_store !! r' = None /\
    h' !! r' = Some pruned /\
    remove_outliers least_squares example_engine example_points
      = Returns (e', pruned).
Proof.
  assert (example_store !! 1%positive = Some example_points) as H
    by reflexivity.
  split; [exact H|].
  exact (@returned_list_is_a_new_object unit least_squares example_engine
           example_store 1%positive example_points H).
Defined.
